(** * create-convexity-n-layer-template: a model of the scaffolding CLI

    The repository holds two variants of one command-line program
    ([src/bin/index.js] and a second entry script, [src/unnamed/part_000]).  Both are modelled
    here: the pure string helpers first ([slugify], the fetch-spec
    computation, the literal [String.prototype.replace] used on the package
    manifest), then the [action] callback as a program in a small
    trace-and-exception monad whose external collaborators (prompts, file
    system, degit, execa) are oracles of a [world] record. *)

From Stdlib Require Import List NArith ZArith Bool Lia Ascii String.
Import ListNotations.

Set Implicit Arguments.

(** ** JavaScript strings

    A JavaScript string is a sequence of UTF-16 code units; regular
    expressions without the [u] flag, [trim] and [startsWith] all work on
    code units. *)

Definition code_unit := N.
Definition jsstring := list code_unit.

(** An ASCII literal of the source, as code units. *)
Definition js (s : string) : jsstring :=
  map N_of_ascii (list_ascii_of_string s).

Open Scope N_scope.

Definition HYPHEN : code_unit := 45.
Definition DOLLAR : code_unit := 36.
Definition SLASH : code_unit := 47.

Definition is_hyphen (c : code_unit) : bool := c =? HYPHEN.
Definition is_slash (c : code_unit) : bool := c =? SLASH.

(** [WhiteSpace] and [LineTerminator] of ECMAScript: what [\s] matches and
    what [trim] removes. *)
Definition is_white_space (c : code_unit) : bool :=
  ((9 <=? c) && (c <=? 13)) || (c =? 32) || (c =? 160) || (c =? 5760)
  || ((8192 <=? c) && (c <=? 8202)) || (c =? 8232) || (c =? 8233)
  || (c =? 8239) || (c =? 8287) || (c =? 12288) || (c =? 65279).

(** The character class [a-z0-9-_.] (the class of the source is its
    complement, [[^a-z0-9-_.]]; after the range [0-9] the hyphen is a
    literal). *)
Definition slug_char (c : code_unit) : bool :=
  ((97 <=? c) && (c <=? 122)) || ((48 <=? c) && (c <=? 57))
  || (c =? 45) || (c =? 95) || (c =? 46).

Definition is_ascii (c : code_unit) : bool := c <? 128.

(** What [toLowerCase] does to an ASCII code unit. *)
Definition ascii_lower (c : code_unit) : code_unit :=
  if (65 <=? c) && (c <=? 90) then c + 32 else c.

Fixpoint drop_while (p : code_unit -> bool) (s : jsstring) : jsstring :=
  match s with
  | [] => []
  | c :: t => if p c then drop_while p t else s
  end.

(** [String.prototype.trim]. *)
Definition trimStart (s : jsstring) : jsstring := drop_while is_white_space s.
Definition trimEnd (s : jsstring) : jsstring :=
  rev (drop_while is_white_space (rev s)).
Definition trim (s : jsstring) : jsstring := trimEnd (trimStart s).

(** [s.replace(/X+/g, r)] for a character class [X]: every maximal run of
    code units in [X] becomes one copy of [r].  [in_run] tells that the
    previous code unit belonged to the run being replaced. *)
Fixpoint replace_runs_from (p : code_unit -> bool) (r : jsstring)
    (in_run : bool) (s : jsstring) : jsstring :=
  match s with
  | [] => []
  | c :: t =>
      if p c then
        if in_run then replace_runs_from p r true t
        else r ++ replace_runs_from p r true t
      else c :: replace_runs_from p r false t
  end.

Definition replace_runs (p : code_unit -> bool) (r s : jsstring) : jsstring :=
  replace_runs_from p r false s.

(** [s.replace(/X/g, r)] for a character class [X]. *)
Definition replace_each (p : code_unit -> bool) (r s : jsstring) : jsstring :=
  flat_map (fun c => if p c then r else [c]) s.

(** The [-$] alternative of [/(^-|-$)/g]. *)
Fixpoint drop_final_hyphen (s : jsstring) : jsstring :=
  match s with
  | [] => []
  | c :: t =>
      match t with
      | [] => if is_hyphen c then [] else [c]
      | _ :: _ => c :: drop_final_hyphen t
      end
  end.

(** [s.replace(/(^-|-$)/g, '')]: a hyphen at index 0 is removed by the
    first alternative; scanning resumes after it, where only the second
    alternative can still match, at the last index. *)
Definition strip_edge_hyphens (s : jsstring) : jsstring :=
  match s with
  | [] => []
  | c :: t => if is_hyphen c then drop_final_hyphen t else drop_final_hyphen s
  end.

(** [s.replace(/^\/+/, '')] and [s.replace(/\/+$/, '')]. *)
Definition strip_leading_slashes (s : jsstring) : jsstring :=
  drop_while is_slash s.
Definition strip_trailing_slashes (s : jsstring) : jsstring :=
  rev (drop_while is_slash (rev s)).

Fixpoint starts_with (p s : jsstring) : bool :=
  match p, s with
  | [], _ => true
  | _ :: _, [] => false
  | a :: p', b :: s' => (a =? b) && starts_with p' s'
  end.

Fixpoint jsstring_eqb (a b : jsstring) : bool :=
  match a, b with
  | [], [] => true
  | x :: a', y :: b' => (x =? y) && jsstring_eqb a' b'
  | _, _ => false
  end.

(** ** slugify *)

Section Slugify.

(** [String.prototype.toLowerCase] is the runtime's; the model knows its
    action on ASCII strings only. *)
Variable toLowerCase : jsstring -> jsstring.

Definition lowers_ascii : Prop :=
  forall s, forallb is_ascii s = true -> toLowerCase s = map ascii_lower s.

(** [slugify] of both variants (the [\.] of the second variant's class is
    the same code unit as [.]). *)
Definition slugify (name : jsstring) : jsstring :=
  strip_edge_hyphens
    (replace_runs is_hyphen [HYPHEN]
       (replace_each (fun c => negb (slug_char c)) [HYPHEN]
          (replace_runs is_white_space [HYPHEN]
             (toLowerCase (trim name))))).

End Slugify.

(** The ASCII fragment of [toLowerCase], used to evaluate the model. *)
Definition ascii_toLowerCase (s : jsstring) : jsstring := map ascii_lower s.


(** ** The fetch specification

    [options.template || 'template'] and [options.repo || '']: an option
    that is [undefined] or the empty string is falsy. *)

Definition or_default (o : option jsstring) (d : jsstring) : jsstring :=
  match o with
  | None => d
  | Some [] => d
  | Some (c :: t) => c :: t
  end.

(** [s.replace(/^github:/, '')] and the like: a literal anchored at the
    start. *)
Definition strip_prefix (p s : jsstring) : jsstring :=
  if starts_with p s then skipn (List.length p) s else s.

Definition GITHUB_PREFIX : jsstring := js "github:".
Definition DOT : jsstring := js ".".
Definition DEFAULT_TEMPLATE : jsstring := js "template".

Record options := mkOptions {
  template : option jsstring;
  repo : option jsstring;
  install : bool;
  noGit : bool
}.

(** [(options.repo || '').trim().replace(/\/+$/, '')], in both variants. *)
Definition repoBase (o : options) : jsstring :=
  strip_trailing_slashes (trim (or_default (repo o) [])).

Definition SLUG_TOKEN : jsstring := js "__PROJECT_SLUG__".

(** ** [String.prototype.replace] with a literal global pattern

    [GetSubstitution] for a pattern without capture groups: in the
    replacement text [$$] is a dollar, [$&] the matched text, [$`] the
    part of the subject before the match and [$'] the part after it; any
    other dollar stands for itself. *)
Fixpoint getSubstitution (matched before after templ : jsstring) : jsstring :=
  match templ with
  | [] => []
  | c :: t =>
      if c =? DOLLAR then
        match t with
        | [] => [c]
        | d :: t' =>
            if d =? DOLLAR then DOLLAR :: getSubstitution matched before after t'
            else if d =? 38 then matched ++ getSubstitution matched before after t'
            else if d =? 96 then before ++ getSubstitution matched before after t'
            else if d =? 39 then after ++ getSubstitution matched before after t'
            else c :: getSubstitution matched before after t
        end
      else c :: getSubstitution matched before after t
  end.

(** [subject.replace(/pat/g, templ)] for a non-empty literal [pat]: the
    subject is scanned from the left; at a match the substitution is
    emitted and the scan resumes after the match ([skip] counts the code
    units of the match still to pass over); [before] is the subject up to
    the current index. *)
Fixpoint replace_all_from (pat templ before : jsstring) (skip : nat)
    (s : jsstring) : jsstring :=
  match s with
  | [] => []
  | c :: t =>
      match skip with
      | S k => replace_all_from pat templ (before ++ [c]) k t
      | O =>
          if starts_with pat s then
            getSubstitution pat before (skipn (List.length pat) s) templ
            ++ replace_all_from pat templ (before ++ [c]) (List.length pat - 1) t
          else c :: replace_all_from pat templ (before ++ [c]) 0 t
      end
  end.

Definition replace_all (pat templ s : jsstring) : jsstring :=
  replace_all_from pat templ [] 0 s.

(** The two substitutions of the manifest, name token first. *)
Definition rewrite_manifest (name_token projectName slug pkg : jsstring)
    : jsstring :=
  replace_all SLUG_TOKEN slug (replace_all name_token projectName pkg).

(** ** Effects: a trace of external calls, exceptions and [process.exit] *)

Record error := mkError { message : jsstring }.

(** An argument of [console.error]. *)
Inductive printable :=
| PStr (s : jsstring)
| PErr (e : error).

Inductive event :=
| ConsoleLog (line : jsstring)
| ConsoleWarn (line : jsstring)
| ConsoleError (args : list printable)
| PromptText (question : jsstring)
| PromptConfirm (question : jsstring)
| PathExists (p : jsstring)
| Readdir (p : jsstring)
| Remove (p : jsstring)
| ReadFile (p : jsstring)
| WriteFile (p content : jsstring)
| Degit (spec : jsstring)
| Clone (spec target : jsstring)
| ImportExeca
| Execa (file : jsstring) (args : list jsstring) (cwd : option jsstring).

(** The events that change the file system or start a subprocess. *)
Definition mutating (e : event) : bool :=
  match e with
  | Remove _ | WriteFile _ _ | Clone _ _ | Execa _ _ _ => true
  | _ => false
  end.

Definition is_clone (e : event) : bool :=
  match e with Clone _ _ => true | _ => false end.

Definition touches_file (e : event) : bool :=
  match e with ReadFile _ | WriteFile _ _ => true | _ => false end.

Inductive completion (A : Type) :=
| Normal (a : A)
| Throw (e : error)
| Exit (code : Z).
Arguments Normal {A} a.
Arguments Throw {A} e.
Arguments Exit {A} code.

(** A computation: the events it performed, in order, and how it ended. *)
Definition io (A : Type) : Type := (list event * completion A)%type.

Definition ret {A} (a : A) : io A := ([], Normal a).

Definition bind {A B} (m : io A) (k : A -> io B) : io B :=
  match m with
  | (t, Normal a) => let (t', c) := k a in (t ++ t', c)
  | (t, Throw e) => (t, Throw e)
  | (t, Exit n) => (t, Exit n)
  end.

(** [try { m } catch (err) { h err }]; [process.exit] is not caught. *)
Definition try_catch {A} (m : io A) (h : error -> io A) : io A :=
  match m with
  | (t, Throw e) => let (t', c) := h e in (t ++ t', c)
  | _ => m
  end.

Definition throw {A} (e : error) : io A := ([], Throw e).
Definition process_exit {A} (code : Z) : io A := ([], Exit code).
Definition emit (ev : event) : io unit := ([ev], Normal tt).

Declare Scope io_scope.
Delimit Scope io_scope with io.
Notation "x <- m ;; k" := (bind m (fun x => k))
  (at level 61, m at next level, right associativity) : io_scope.
Notation "m ;; k" := (bind m (fun _ => k))
  (at level 61, right associativity) : io_scope.

(** The answer of an external call that may reject. *)
Inductive result (A : Type) :=
| Ok (a : A)
| Fail (e : error).
Arguments Ok {A} a.
Arguments Fail {A} e.

Definition call {A} (ev : event) (r : result A) : io A :=
  ([ev], match r with Ok a => Normal a | Fail e => Throw e end).

Definition query {A} (ev : event) (a : A) : io A := ([ev], Normal a).

(** What a prompt gives back once it settles.  A prompt that never
    settles (its input closed before any answer) is outside the model:
    the runs described are those in which every prompt that is shown is
    answered or cancelled. *)
Inductive reply (A : Type) :=
| Answered (a : A)
| Cancelled.
Arguments Answered {A} a.
Arguments Cancelled {A}.

(** The collaborators of one run.  Every call the program makes is made
    at most once with given arguments, so an oracle per call suffices. *)
Record world := mkWorld {
  cwd : jsstring;
  path_resolve : jsstring -> jsstring -> jsstring;
  path_join : jsstring -> jsstring -> jsstring;
  (** what the user submits to the text prompt, in order; the prompt is
      cancelled when nothing valid is left *)
  typed_names : list jsstring;
  confirm_overwrite : reply bool;
  fs_pathExists : jsstring -> bool;
  fs_readdir : jsstring -> result (list jsstring);
  fs_remove : jsstring -> result unit;
  fs_readFile : jsstring -> result jsstring;
  fs_writeFile : jsstring -> jsstring -> result unit;
  degit_new : jsstring -> result unit;
  degit_clone : jsstring -> jsstring -> result unit;
  import_execa : result unit;
  execa : jsstring -> list jsstring -> option jsstring -> result unit
}.

(** The exit status of the process once [action] has settled. *)
Definition exit_code {A} (r : io A) : Z :=
  match snd r with
  | Normal _ => 0
  | Throw _ => 1
  | Exit n => n
  end.

Definition trace {A} (r : io A) : list event := fst r.

Definition NL : jsstring := [10].

(** ** The stages both variants share *)

Section Stages.

Variable toLowerCase : jsstring -> jsstring.
Variable w : world.

Local Open Scope io_scope.

(** The [validate] callback of the text prompt. *)
Definition validate (value : jsstring) : bool :=
  match value with
  | [] => false
  | _ :: _ => negb (Nat.eqb (List.length (trim value)) 0)
  end.

(** The prompt asks again until [validate] accepts; when the user has
    nothing valid left to submit the prompt is taken as cancelled. *)
Definition ask_name : reply jsstring :=
  match find validate (typed_names w) with
  | Some v => Answered v
  | None => Cancelled
  end.

(** Stage 1: a positional name is taken as it is; a prompted one is
    trimmed. *)
Definition resolveProjectName (projectName : option jsstring) : io jsstring :=
  match projectName with
  | Some (c :: t) => ret (c :: t)
  | _ =>
      emit (PromptText (js "Project name:"));;
      match ask_name with
      | Answered v => ret (trim v)
      | Cancelled => emit (ConsoleLog (js "Aborted."));; process_exit 1
      end
  end.

Definition targetDir (projectName : jsstring) : jsstring :=
  path_resolve w (cwd w) projectName.

Definition overwrite_question (projectName : jsstring) : jsstring :=
  js "Directory " ++ projectName
  ++ js " already exists and is not empty. Overwrite?".

(** Stage 2: the guard of the target directory. *)
Definition guardTarget (projectName : jsstring) : io unit :=
  exists_ <- query (PathExists (targetDir projectName))
               (fs_pathExists w (targetDir projectName));;
  if exists_ then
    files <- call (Readdir (targetDir projectName))
               (fs_readdir w (targetDir projectName));;
    match files with
    | [] => ret tt
    | _ :: _ =>
        emit (PromptConfirm (overwrite_question projectName));;
        match confirm_overwrite w with
        | Cancelled => emit (ConsoleLog (js "Aborted."));; process_exit 1
        | Answered false => emit (ConsoleLog (js "Aborting."));; process_exit 1
        | Answered true =>
            call (Remove (targetDir projectName))
              (fs_remove w (targetDir projectName))
        end
    end
  else ret tt.

Definition creating_line (projectName : jsstring) : jsstring :=
  NL ++ js "Creating project " ++ projectName ++ js "..." ++ NL.

(** Stages 1 and 2 and the announcement, up to the fetch. *)
Definition prelude (projectName : option jsstring) : io jsstring :=
  name <- resolveProjectName projectName;;
  guardTarget name;;
  emit (ConsoleLog (creating_line name));;
  ret name.

Definition pkgPath (projectName : jsstring) : jsstring :=
  path_join w (targetDir projectName) (js "package.json").

(** Stage 4: the manifest, when there is one. *)
Definition rewritePackage (name_token projectName : jsstring) : io unit :=
  exists_ <- query (PathExists (pkgPath projectName))
               (fs_pathExists w (pkgPath projectName));;
  if exists_ then
    pkg <- call (ReadFile (pkgPath projectName))
             (fs_readFile w (pkgPath projectName));;
    call (WriteFile (pkgPath projectName)
            (rewrite_manifest name_token projectName
               (slugify toLowerCase projectName) pkg))
      (fs_writeFile w (pkgPath projectName)
         (rewrite_manifest name_token projectName
            (slugify toLowerCase projectName) pkg))
  else ret tt.

Definition GIT : jsstring := js "git".
Definition COMMIT_ARGS : list jsstring :=
  [js "commit"; js "-m"; js "chore: initial commit"].

Definition failed_clone_lines (spec : jsstring) : io unit :=
  emit (ConsoleError
          [PStr (js "Failed to clone template from " ++ [34] ++ spec
                 ++ [34] ++ js ".")]);;
  emit (ConsoleError
          [PStr (js "Make sure the repo and template path are correct and the repo is public (or accessible).")]).

(** The last two [console.log]s. *)
Definition next_steps (o : options) (projectName : jsstring) : jsstring :=
  NL ++ js "Next steps:" ++ NL ++ js "  1) cd " ++ projectName ++ NL
  ++ js "  2) "
  ++ (if install o then []
      else js "npm install  (if you skipped installation)" ++ NL ++ js "  ")
  ++ js "3) npm run dev  (or your start script)" ++ NL.

Definition summary (o : options) (projectName : jsstring) : io unit :=
  emit (ConsoleLog (NL ++ js "Done!"));;
  emit (ConsoleLog (next_steps o projectName)).

(** [err?.message || err]. *)
Definition message_or_error (err : error) : printable :=
  match message err with
  | [] => PErr err
  | _ :: _ => PStr (message err)
  end.

(** The [catch] that closes the body of [action]. *)
Definition report (err : error) : io unit :=
  emit (ConsoleError [PStr (js "Error:"); message_or_error err]);;
  process_exit 1.

End Stages.

(** ** The first variant, [src/bin/index.js] *)

Module Bin.

(** The leading separators are stripped before the comparison with
    ["."]. *)
Definition templatePath (o : options) : jsstring :=
  strip_leading_slashes (or_default (template o) DEFAULT_TEMPLATE).

Definition buildSpec (o : options) (base : jsstring) : jsstring :=
  if jsstring_eqb (templatePath o) DOT then base
  else base ++ [SLASH] ++ templatePath o.

Definition repoSpec (o : options) : jsstring := buildSpec o (repoBase o).

Definition fallbackBase (o : options) : jsstring :=
  strip_prefix GITHUB_PREFIX (repoBase o).

Definition fallbackSpec (o : options) : jsstring :=
  buildSpec o (fallbackBase o).

(** This variant substitutes the name of the template itself. *)
Definition NAME_TOKEN : jsstring := js "convexity-n-layer-template".

Definition retry_warning (o : options) : jsstring :=
  js "Failed to clone from " ++ [34] ++ repoSpec o ++ [34]
  ++ js ". Retrying with " ++ [34] ++ fallbackSpec o ++ [34] ++ js "...".

Section Action.

Variable toLowerCase : jsstring -> jsstring.
Variable w : world.

Local Open Scope io_scope.

Definition tryClone (projectName spec : jsstring) : io unit :=
  call (Degit spec) (degit_new w spec);;
  call (Clone spec (targetDir w projectName))
    (degit_clone w spec (targetDir w projectName)).

(** Stage 3: on a failure the [github:] prefix, when there is one, is
    taken off and the fetch tried again; the result is the spec used. *)
Definition fetchTemplate (o : options) (projectName : jsstring)
    : io jsstring :=
  try_catch (tryClone projectName (repoSpec o);; ret (repoSpec o))
    (fun err =>
       if starts_with GITHUB_PREFIX (repoBase o) then
         emit (ConsoleWarn (retry_warning o));;
         tryClone projectName (fallbackSpec o);;
         ret (fallbackSpec o)
       else
         failed_clone_lines (repoSpec o);;
         throw err).

(** Stage 5. *)
Definition installDependencies (o : options) (projectName : jsstring)
    : io unit :=
  if install o then
    call ImportExeca (import_execa w);;
    emit (ConsoleLog (js "Installing dependencies with npm..."));;
    try_catch
      (call (Execa (js "npm") [js "install"] (Some (targetDir w projectName)))
         (execa w (js "npm") [js "install"] (Some (targetDir w projectName)));;
       emit (ConsoleLog (js "Dependencies installed.")))
      (fun err =>
         emit (ConsoleError
                 [PStr (js "npm install failed. You can run it manually inside the new project.")]);;
         throw err)
  else emit (ConsoleLog (js "Skipping dependency install.")).

Definition commit_skipped : jsstring :=
  js "Initialized git repository (commit skipped " ++ [8212]
  ++ js " git user may not be configured).".

(** Stage 6. *)
Definition initGit (o : options) (projectName : jsstring) : io unit :=
  if negb (noGit o) then
    try_catch
      (call ImportExeca (import_execa w);;
       call (Execa GIT [js "init"] (Some (targetDir w projectName)))
         (execa w GIT [js "init"] (Some (targetDir w projectName)));;
       call (Execa GIT [js "add"; js "."] (Some (targetDir w projectName)))
         (execa w GIT [js "add"; js "."] (Some (targetDir w projectName)));;
       try_catch
         (call (Execa GIT COMMIT_ARGS (Some (targetDir w projectName)))
            (execa w GIT COMMIT_ARGS (Some (targetDir w projectName)));;
          emit (ConsoleLog
                  (js "Initialized git repository and made initial commit.")))
         (fun _ => emit (ConsoleLog commit_skipped)))
      (fun _ =>
         emit (ConsoleLog
                 (js "Git init failed (git may be missing). Continuing without git.")))
  else emit (ConsoleLog (js "Skipping git initialization (--no-git).")).

(** The callback given to [.action], inside its [try]. *)
Definition body (projectName : option jsstring) (o : options) : io unit :=
  name <- prelude w projectName;;
  fetchTemplate o name;;
  rewritePackage toLowerCase w NAME_TOKEN name;;
  installDependencies o name;;
  initGit o name;;
  summary o name.

Definition action (projectName : option jsstring) (o : options) : io unit :=
  try_catch (body projectName o) report.

End Action.

End Bin.

(** ** The second variant, [src/unnamed/part_000]

    The script that detects the installer and fetches without a
    fallback. *)

Module Alt.

(** The comparison with ["."] comes first, the stripping after. *)
Definition templatePath (o : options) : jsstring :=
  or_default (template o) DEFAULT_TEMPLATE.

Definition repoSpec (o : options) : jsstring :=
  if jsstring_eqb (templatePath o) DOT then repoBase o
  else repoBase o ++ [SLASH] ++ strip_leading_slashes (templatePath o).

Definition NAME_TOKEN : jsstring := js "__PROJECT_NAME__".

Definition PNPM : jsstring := js "pnpm".
Definition YARN : jsstring := js "yarn".
Definition NPM : jsstring := js "npm".

Section Action.

Variable toLowerCase : jsstring -> jsstring.
Variable w : world.

Local Open Scope io_scope.

Definition detectInstaller : io jsstring :=
  pnpm <- try_catch
            (call (Execa PNPM [js "--version"] None)
               (execa w PNPM [js "--version"] None);;
             ret true)
            (fun _ => ret false);;
  if pnpm then ret PNPM
  else
    yarn <- try_catch
              (call (Execa YARN [js "--version"] None)
                 (execa w YARN [js "--version"] None);;
               ret true)
              (fun _ => ret false);;
    if yarn then ret YARN else ret NPM.

(** Stage 3 (steps 3 and 4 of the source): one attempt, no fallback. *)
Definition fetchTemplate (o : options) (projectName : jsstring) : io unit :=
  try_catch (call (Degit (repoSpec o)) (degit_new w (repoSpec o)))
    (fun err =>
       emit (ConsoleError
               [PStr (js "Failed to create degit emitter. Check your repo/template path.")]);;
       throw err);;
  try_catch
    (call (Clone (repoSpec o) (targetDir w projectName))
       (degit_clone w (repoSpec o) (targetDir w projectName)))
    (fun err =>
       failed_clone_lines (repoSpec o);;
       throw err).

Definition installArgs (installer : jsstring) : list jsstring :=
  if jsstring_eqb installer YARN then [] else [js "install"].

(** Stage 5 (step 6 of the source). *)
Definition installDependencies (o : options) (projectName : jsstring)
    : io unit :=
  if install o then
    installer <- detectInstaller;;
    emit (ConsoleLog
            (js "Installing dependencies with " ++ installer ++ js "..."));;
    try_catch
      (call (Execa installer (installArgs installer)
               (Some (targetDir w projectName)))
         (execa w installer (installArgs installer)
            (Some (targetDir w projectName)));;
       emit (ConsoleLog (js "Dependencies installed.")))
      (fun err =>
         emit (ConsoleError
                 [PStr (js "Package installation failed. You can run the installer manually inside the new project.")]);;
         throw err)
  else emit (ConsoleLog (js "Skipping dependency install.")).

(** The message as the file has it, three code units where a dash was
    meant. *)
Definition commit_skipped : jsstring :=
  js "Initialized git repository (commit skipped " ++ [226; 8364; 8221]
  ++ js " git user may not be configured).".

(** Stage 6 (step 7 of the source). *)
Definition initGit (o : options) (projectName : jsstring) : io unit :=
  if negb (noGit o) then
    try_catch
      (call (Execa GIT [js "init"] (Some (targetDir w projectName)))
         (execa w GIT [js "init"] (Some (targetDir w projectName)));;
       call (Execa GIT [js "add"; js "."] (Some (targetDir w projectName)))
         (execa w GIT [js "add"; js "."] (Some (targetDir w projectName)));;
       try_catch
         (call (Execa GIT COMMIT_ARGS (Some (targetDir w projectName)))
            (execa w GIT COMMIT_ARGS (Some (targetDir w projectName)));;
          emit (ConsoleLog
                  (js "Initialized git repository and made initial commit.")))
         (fun _ => emit (ConsoleLog commit_skipped)))
      (fun _ =>
         emit (ConsoleLog
                 (js "Git init failed (git may be missing). Continuing without git.")))
  else emit (ConsoleLog (js "Skipping git initialization (--no-git).")).

Definition body (projectName : option jsstring) (o : options) : io unit :=
  name <- prelude w projectName;;
  fetchTemplate o name;;
  rewritePackage toLowerCase w NAME_TOKEN name;;
  installDependencies o name;;
  initGit o name;;
  summary o name.

Definition action (projectName : option jsstring) (o : options) : io unit :=
  try_catch (body projectName o) report.

End Action.

End Alt.

(** ** Vocabulary of the statements *)

(** [t] occurs in [s] as a contiguous substring. *)
Definition occurs (t s : jsstring) : Prop := exists a b, s = a ++ t ++ b.

Fixpoint occursb (t s : jsstring) : bool :=
  match s with
  | [] => starts_with t []
  | _ :: s' => starts_with t s || occursb t s'
  end.

(** [first] and the pieces of [rest], with [sep] between neighbours. *)
Fixpoint join (sep first : jsstring) (rest : list jsstring) : jsstring :=
  match rest with
  | [] => first
  | l :: rest' => first ++ sep ++ join sep l rest'
  end.

(** [l0], [l1], ... are what a scan from the left leaves between the
    occurrences of [pat] it finds: no occurrence begins in a piece, be it
    one that would run into the occurrence that follows the piece. *)
Fixpoint leftmost_split (pat l0 : jsstring) (ls : list jsstring) : Prop :=
  match ls with
  | [] => ~ occurs pat l0
  | l1 :: ls' =>
      ~ occurs pat (l0 ++ removelast pat) /\ leftmost_split pat l1 ls'
  end.

Definition starts_with_hyphen (s : jsstring) : bool :=
  match s with
  | [] => false
  | c :: _ => is_hyphen c
  end.

Fixpoint ends_with_hyphen (s : jsstring) : bool :=
  match s with
  | [] => false
  | c :: t =>
      match t with
      | [] => is_hyphen c
      | _ :: _ => ends_with_hyphen t
      end
  end.

Fixpoint no_double_hyphen (s : jsstring) : bool :=
  match s with
  | [] => true
  | c :: t => negb (is_hyphen c && starts_with_hyphen t) && no_double_hyphen t
  end.

(** The slug as the specification words it: the last step takes away
    every leading and every trailing hyphen. *)
Definition trim_hyphens (s : jsstring) : jsstring :=
  rev (drop_while is_hyphen (rev (drop_while is_hyphen s))).

Definition spec_slugify (toLowerCase : jsstring -> jsstring)
    (name : jsstring) : jsstring :=
  trim_hyphens
    (replace_runs is_hyphen [HYPHEN]
       (replace_each (fun c => negb (slug_char c)) [HYPHEN]
          (replace_runs is_white_space [HYPHEN]
             (toLowerCase (trim name))))).

(** The text just before the last step of [slugify]. *)
Definition collapsed (toLowerCase : jsstring -> jsstring)
    (name : jsstring) : jsstring :=
  replace_runs is_hyphen [HYPHEN]
    (replace_each (fun c => negb (slug_char c)) [HYPHEN]
       (replace_runs is_white_space [HYPHEN] (toLowerCase (trim name)))).

(** The fetch spec as the specification words it, from a descriptor and
    a subpath. *)
Definition worded_spec (descriptor subpath : jsstring) : jsstring :=
  if jsstring_eqb subpath DOT then strip_trailing_slashes descriptor
  else strip_trailing_slashes descriptor ++ [SLASH]
       ++ strip_leading_slashes subpath.

(** No code unit of [a] is one of [b]. *)
Definition disjoint_chars (a b : jsstring) : bool :=
  forallb (fun c => negb (existsb (N.eqb c) b)) a.

Definition has_dollar (s : jsstring) : bool := existsb (N.eqb DOLLAR) s.

(** The options as the argument parser hands them over when no flag is
    given. *)
Definition bin_defaults : options :=
  mkOptions (Some DEFAULT_TEMPLATE)
    (Some (js "wrappedcbdc/convexity-n-layer-template")) false false.

Definition alt_defaults : options :=
  mkOptions (Some DEFAULT_TEMPLATE)
    (Some (js "github:wrappedcbdc/convexity-n-layer-template")) false false.

(** A quiet world for evaluating the model: nothing exists yet, every
    call succeeds, the user declines and types nothing. *)
Definition calm_world : world :=
  mkWorld (js "/work")
    (fun base p => base ++ [SLASH] ++ p)
    (fun base p => base ++ [SLASH] ++ p)
    [] (Answered false)
    (fun _ => false) (fun _ => Ok []) (fun _ => Ok tt)
    (fun _ => Ok []) (fun _ _ => Ok tt)
    (fun _ => Ok tt) (fun _ _ => Ok tt) (Ok tt) (fun _ _ _ => Ok tt).

(** The target directory is there and holds a file; the user declines. *)
Definition busy_world : world :=
  mkWorld (js "/work")
    (fun base p => base ++ [SLASH] ++ p)
    (fun base p => base ++ [SLASH] ++ p)
    [] (Answered false)
    (fun p => jsstring_eqb p (js "/work/app"))
    (fun _ => Ok [js "README.md"]) (fun _ => Ok tt)
    (fun _ => Ok []) (fun _ _ => Ok tt)
    (fun _ => Ok tt) (fun _ _ => Ok tt) (Ok tt) (fun _ _ _ => Ok tt).

Definition NO_SUCH_COMMAND : error := mkError (js "spawn ENOENT").


(** No subprocess can be started. *)
Definition bare_world : world :=
  mkWorld (js "/work")
    (fun base p => base ++ [SLASH] ++ p)
    (fun base p => base ++ [SLASH] ++ p)
    [] (Answered false)
    (fun _ => false) (fun _ => Ok []) (fun _ => Ok tt)
    (fun _ => Ok []) (fun _ _ => Ok tt)
    (fun _ => Ok tt) (fun _ _ => Ok tt) (Ok tt)
    (fun _ _ _ => Fail NO_SUCH_COMMAND).

(** The run up to, and without, the version-control stage. *)
Definition bin_scaffold (toLowerCase : jsstring -> jsstring) (w : world)
    (projectName : option jsstring) (o : options) : io jsstring :=
  (name <- prelude w projectName;;
   Bin.fetchTemplate w o name;;
   rewritePackage toLowerCase w Bin.NAME_TOKEN name;;
   Bin.installDependencies w o name;;
   ret name)%io.

Definition alt_scaffold (toLowerCase : jsstring -> jsstring) (w : world)
    (projectName : option jsstring) (o : options) : io jsstring :=
  (name <- prelude w projectName;;
   Alt.fetchTemplate w o name;;
   rewritePackage toLowerCase w Alt.NAME_TOKEN name;;
   Alt.installDependencies w o name;;
   ret name)%io.


(** The two scripts. *)
Inductive variant :=
| BinIndex
| SecondScript.

Definition action_of (v : variant) :=
  match v with BinIndex => Bin.action | SecondScript => Alt.action end.

Definition scaffold_of (v : variant) :=
  match v with BinIndex => bin_scaffold | SecondScript => alt_scaffold end.

Definition initGit_of (v : variant) :=
  match v with BinIndex => Bin.initGit | SecondScript => Alt.initGit end.

Definition name_token_of (v : variant) : jsstring :=
  match v with BinIndex => Bin.NAME_TOKEN | SecondScript => Alt.NAME_TOKEN end.

(** The lines the version-control stage may end with. *)
Definition git_messages (v : variant) : list jsstring :=
  [js "Initialized git repository and made initial commit.";
   match v with
   | BinIndex => Bin.commit_skipped
   | SecondScript => Alt.commit_skipped
   end;
   js "Git init failed (git may be missing). Continuing without git.";
   js "Skipping git initialization (--no-git)."].

(** A subprocess call, or the loading of the module that makes them. *)
Definition is_spawn (e : event) : bool :=
  match e with Execa _ _ _ | ImportExeca => true | _ => false end.

Definition final_log (t : list event) : jsstring :=
  match last t (ConsoleLog []) with
  | ConsoleLog line => line
  | _ => []
  end.

Definition no_file_access (e : event) : bool := negb (touches_file e).

Definition is_degit (e : event) : bool :=
  match e with Degit _ => true | _ => false end.


Definition error_event (e : error) : event :=
  ConsoleError [PStr (js "Error:"); message_or_error e].

(** ** Further vocabulary *)

(** The code units [slugify] keeps as they are: [a-z0-9_.]. *)
Definition keep_char (c : code_unit) : bool :=
  slug_char c && negb (is_hyphen c).

(** No dollar of [templ] starts one of the patterns [$$], [$&], [$`],
    [$']. *)
Fixpoint dollar_literal (templ : jsstring) : bool :=
  match templ with
  | [] => true
  | c :: t =>
      if c =? DOLLAR then
        match t with
        | [] => true
        | d :: _ =>
            negb ((d =? DOLLAR) || (d =? 38) || (d =? 96) || (d =? 39))
            && dollar_literal t
        end
      else dollar_literal t
  end.

Definition is_remove (e : event) : bool :=
  match e with Remove _ => true | _ => false end.

Definition is_write (e : event) : bool :=
  match e with WriteFile _ _ => true | _ => false end.

Definition is_prompt_confirm (e : event) : bool :=
  match e with PromptConfirm _ => true | _ => false end.

(** A [git] subprocess. *)
Definition is_git (e : event) : bool :=
  match e with Execa file _ _ => jsstring_eqb file GIT | _ => false end.

(** The first line of the summary. *)
Definition is_done (e : event) : bool :=
  match e with
  | ConsoleLog line => jsstring_eqb line (NL ++ js "Done!")
  | _ => false
  end.

(** A fetch that went through. *)
Definition cloned_ok (w : world) (e : event) : bool :=
  match e with
  | Clone spec target =>
      match degit_clone w spec target with Ok _ => true | Fail _ => false end
  | _ => false
  end.

Definition fetchTemplate_of (v : variant) (w : world) (o : options)
    (name : jsstring) : io unit :=
  match v with
  | BinIndex => bind (Bin.fetchTemplate w o name) (fun _ => ret tt)
  | SecondScript => Alt.fetchTemplate w o name
  end.

Definition installDependencies_of (v : variant) :=
  match v with
  | BinIndex => Bin.installDependencies
  | SecondScript => Alt.installDependencies
  end.

(** The run up to, and without, the install stage. *)
Definition prepared_of (v : variant) (toLowerCase : jsstring -> jsstring)
    (w : world) (projectName : option jsstring) (o : options) : io jsstring :=
  (name <- prelude w projectName;;
   fetchTemplate_of v w o name;;
   rewritePackage toLowerCase w (name_token_of v) name;;
   ret name)%io.

(** The install command of the second variant for each installer. *)
Definition install_commands : list (jsstring * list jsstring) :=
  [(Alt.PNPM, [js "install"]); (Alt.YARN, []); (Alt.NPM, [js "install"])].

(** The user types a blank line, then a padded name. *)
Definition typing_world : world :=
  mkWorld (js "/work")
    (fun base p => base ++ [SLASH] ++ p)
    (fun base p => base ++ [SLASH] ++ p)
    [js "   "; js "  my app "] (Answered false)
    (fun _ => false) (fun _ => Ok []) (fun _ => Ok tt)
    (fun _ => Ok []) (fun _ _ => Ok tt)
    (fun _ => Ok tt) (fun _ _ => Ok tt) (Ok tt) (fun _ _ _ => Ok tt).

(** The target exists but cannot be listed. *)
Definition NOT_A_DIRECTORY : error := mkError (js "ENOTDIR: not a directory").

Definition file_in_the_way_world : world :=
  mkWorld (js "/work")
    (fun base p => base ++ [SLASH] ++ p)
    (fun base p => base ++ [SLASH] ++ p)
    [] (Answered true)
    (fun p => jsstring_eqb p (js "/work/app"))
    (fun _ => Fail NOT_A_DIRECTORY) (fun _ => Ok tt)
    (fun _ => Ok []) (fun _ _ => Ok tt)
    (fun _ => Ok tt) (fun _ _ => Ok tt) (Ok tt) (fun _ _ _ => Ok tt).

(** The target holds a file and the user agrees to overwrite; the
    fetched template has a manifest. *)
Definition overwrite_world : world :=
  mkWorld (js "/work")
    (fun base p => base ++ [SLASH] ++ p)
    (fun base p => base ++ [SLASH] ++ p)
    [] (Answered true)
    (fun _ => true)
    (fun _ => Ok [js "old.txt"]) (fun _ => Ok tt)
    (fun _ => Ok (js "{ name: __PROJECT_SLUG__ }")) (fun _ _ => Ok tt)
    (fun _ => Ok tt) (fun _ _ => Ok tt) (Ok tt) (fun _ _ _ => Ok tt).

(** Whenever [m] ends with [process.exit], the code is 1. *)
Definition exits_one {A} (m : io A) : Prop :=
  forall n, snd m = Exit n -> n = 1%Z.

(** Every subprocess of the run is a [git] one. *)
Definition only_git (e : event) : bool :=
  match e with Execa file _ _ => jsstring_eqb file GIT | _ => true end.

(** The run up to the summary. *)
Definition before_summary (v : variant) (toLowerCase : jsstring -> jsstring)
    (w : world) (projectName : option jsstring) (o : options) : io jsstring :=
  (name <- scaffold_of v toLowerCase w projectName o;;
   initGit_of v w o name;;
   ret name)%io.

(** The fetched template has a manifest without tokens. *)
Definition plain_manifest_world : world :=
  mkWorld (js "/work")
    (fun base p => base ++ [SLASH] ++ p)
    (fun base p => base ++ [SLASH] ++ p)
    [] (Answered false)
    (fun p => jsstring_eqb p (js "/work/app/package.json"))
    (fun _ => Ok []) (fun _ => Ok tt)
    (fun _ => Ok (js "{ name: fixed }")) (fun _ _ => Ok tt)
    (fun _ => Ok tt) (fun _ _ => Ok tt) (Ok tt) (fun _ _ _ => Ok tt).

(** Fetching, writing the manifest, starting a subprocess. *)
Definition builds (e : event) : bool :=
  is_degit e || is_clone e || is_write e || is_spawn e.

(** The number of fetch attempts a variant allows itself. *)
Definition max_attempts (v : variant) : nat :=
  match v with BinIndex => 2 | SecondScript => 1 end.

(** The non-empty suffixes of [s], longest first. *)
Fixpoint tails (s : jsstring) : list jsstring :=
  match s with
  | [] => []
  | _ :: t => s :: tails t
  end.

(** [a] and [b] begin alike: one is a prefix of the other. *)
Definition agreeb (a b : jsstring) : bool :=
  starts_with a b || starts_with b a.

(** A copy of [r] and an occurrence of [q] can share a position of some
    text: a non-empty suffix of [q] begins like [r], or a proper non-empty
    suffix of [r] begins like [q].  (Containing [q], being contained in
    [q] and sharing an end with [q] are all cases of this.) *)
Definition overlaps (r q : jsstring) : bool :=
  existsb (fun x => agreeb x r) (tails q)
  || existsb (fun y => agreeb y q) (tails (tl r)).

(** * Properties *)

(** ** Character classes *)

Lemma slug_char_iff (c : code_unit) :
  slug_char c = true <->
  (97 <= c <= 122 \/ 48 <= c <= 57 \/ c = 45 \/ c = 95 \/ c = 46).
Proof.
  unfold slug_char.
  repeat rewrite ?orb_true_iff, ?andb_true_iff, ?N.leb_le, ?N.eqb_eq.
  tauto.
Qed.

Lemma is_white_space_iff (c : code_unit) :
  is_white_space c = true <->
  (9 <= c <= 13 \/ c = 32 \/ c = 160 \/ c = 5760 \/ 8192 <= c <= 8202
   \/ c = 8232 \/ c = 8233 \/ c = 8239 \/ c = 8287 \/ c = 12288
   \/ c = 65279).
Proof.
  unfold is_white_space.
  repeat rewrite ?orb_true_iff, ?andb_true_iff, ?N.leb_le, ?N.eqb_eq.
  tauto.
Qed.

Lemma slug_char_not_space (c : code_unit) :
  slug_char c = true -> is_white_space c = false.
Proof.
  intros H. apply slug_char_iff in H.
  destruct (is_white_space c) eqn:E; [| reflexivity].
  apply is_white_space_iff in E. lia.
Qed.

Lemma slug_char_ascii (c : code_unit) : slug_char c = true -> is_ascii c = true.
Proof.
  intros H. apply slug_char_iff in H. apply N.ltb_lt. lia.
Qed.

Lemma slug_char_lower (c : code_unit) : slug_char c = true -> ascii_lower c = c.
Proof.
  intros H. apply slug_char_iff in H. unfold ascii_lower.
  destruct (65 <=? c) eqn:E1; [| reflexivity].
  destruct (c <=? 90) eqn:E2; [| reflexivity].
  apply N.leb_le in E1, E2. lia.
Qed.

Lemma slug_char_hyphen : slug_char HYPHEN = true.
Proof. reflexivity. Qed.

Lemma is_hyphen_eq (c : code_unit) : is_hyphen c = true -> c = HYPHEN.
Proof. apply N.eqb_eq. Qed.

(** ** What each step of [slugify] keeps *)

Lemma drop_while_id (p : code_unit -> bool) (s : jsstring) :
  (forall c, In c s -> p c = false) -> drop_while p s = s.
Proof.
  destruct s as [| c t]; [reflexivity |].
  intros H. simpl. rewrite (H c); [reflexivity | now left].
Qed.

Lemma trim_id (s : jsstring) :
  (forall c, In c s -> is_white_space c = false) -> trim s = s.
Proof.
  intros H. unfold trim, trimStart, trimEnd.
  rewrite (drop_while_id _ s H).
  rewrite drop_while_id.
  - apply rev_involutive.
  - intros c Hc. apply H. now apply in_rev.
Qed.

Lemma replace_runs_from_id (p : code_unit -> bool) (r : jsstring) (s : jsstring) :
  (forall c, In c s -> p c = false) ->
  forall b, replace_runs_from p r b s = s.
Proof.
  induction s as [| c t IH]; intros H b; [reflexivity |].
  simpl. rewrite (H c) by now left.
  f_equal. apply IH. intros d Hd. apply H. now right.
Qed.

Lemma replace_each_id (p : code_unit -> bool) (r : jsstring) (s : jsstring) :
  (forall c, In c s -> p c = false) -> replace_each p r s = s.
Proof.
  induction s as [| c t IH]; intros H; [reflexivity |].
  unfold replace_each in *. simpl. rewrite (H c) by now left.
  simpl. f_equal. apply IH. intros d Hd. apply H. now right.
Qed.

Lemma replace_each_class (s : jsstring) :
  forallb slug_char
    (replace_each (fun c => negb (slug_char c)) [HYPHEN] s) = true.
Proof.
  induction s as [| c t IH]; [reflexivity |].
  unfold replace_each in *. simpl.
  rewrite forallb_app, IH, andb_true_r.
  destruct (slug_char c) eqn:E; simpl; [now rewrite E | reflexivity].
Qed.

Lemma replace_runs_from_forallb (P p : code_unit -> bool) (s : jsstring) :
  P HYPHEN = true -> forallb P s = true ->
  forall b, forallb P (replace_runs_from p [HYPHEN] b s) = true.
Proof.
  intros HP. induction s as [| c t IH]; intros H b; [reflexivity |].
  simpl in H. apply andb_true_iff in H as [Hc Ht].
  simpl. destruct (p c); [destruct b |]; simpl;
    rewrite ?HP, ?Hc; simpl; now apply IH.
Qed.

Lemma drop_final_hyphen_cons (c d : code_unit) (t : jsstring) :
  drop_final_hyphen (c :: d :: t) = c :: drop_final_hyphen (d :: t).
Proof. reflexivity. Qed.

Lemma no_double_hyphen_cons (c : code_unit) (t : jsstring) :
  no_double_hyphen (c :: t)
  = negb (is_hyphen c && starts_with_hyphen t) && no_double_hyphen t.
Proof. reflexivity. Qed.

Lemma drop_final_hyphen_forallb (P : code_unit -> bool) (s : jsstring) :
  forallb P s = true -> forallb P (drop_final_hyphen s) = true.
Proof.
  induction s as [| c t IH]; intros H; [reflexivity |].
  simpl in H. apply andb_true_iff in H as [Hc Ht].
  destruct t as [| d t'].
  - simpl. destruct (is_hyphen c); simpl; [reflexivity | now rewrite Hc].
  - rewrite drop_final_hyphen_cons.
    change (P c && forallb P (drop_final_hyphen (d :: t')) = true).
    rewrite Hc. now apply IH.
Qed.

Lemma strip_edge_hyphens_forallb (P : code_unit -> bool) (s : jsstring) :
  forallb P s = true -> forallb P (strip_edge_hyphens s) = true.
Proof.
  destruct s as [| c t]; intros H; [reflexivity |].
  unfold strip_edge_hyphens. destruct (is_hyphen c).
  - simpl in H. apply andb_true_iff in H as [_ Ht].
    now apply drop_final_hyphen_forallb.
  - now apply drop_final_hyphen_forallb.
Qed.

(** ** Hyphens after the collapse *)

Lemma collapse_from_shape (s : jsstring) (b : bool) :
  no_double_hyphen (replace_runs_from is_hyphen [HYPHEN] b s) = true
  /\ (b = true ->
      starts_with_hyphen (replace_runs_from is_hyphen [HYPHEN] b s) = false).
Proof.
  revert b. induction s as [| c t IH]; intros b; [now split |].
  simpl. destruct (is_hyphen c) eqn:Ec.
  - destruct (IH true) as [Hn Hs]. destruct b.
    + split; [exact Hn | intros _; now apply Hs].
    + split; [| discriminate]. simpl.
      rewrite Hs by reflexivity. exact Hn.
  - destruct (IH false) as [Hn _]. split.
    + simpl. now rewrite Ec.
    + intros _. simpl. exact Ec.
Qed.

Lemma collapse_from_id (s : jsstring) :
  no_double_hyphen s = true ->
  forall b, (b = true -> starts_with_hyphen s = false) ->
  replace_runs_from is_hyphen [HYPHEN] b s = s.
Proof.
  induction s as [| c t IH]; intros Hn b Hb; [reflexivity |].
  simpl in Hn. apply andb_true_iff in Hn as [Hc Ht].
  simpl. destruct (is_hyphen c) eqn:Ec.
  - destruct b; [simpl in Hb; rewrite Hb in Ec by reflexivity; discriminate |].
    simpl in Hc. apply negb_true_iff in Hc.
    rewrite (is_hyphen_eq _ Ec). simpl. f_equal.
    apply IH; [exact Ht | intros _; exact Hc].
  - f_equal. apply IH; [exact Ht | discriminate].
Qed.

Lemma drop_final_hyphen_starts (s : jsstring) :
  starts_with_hyphen s = false ->
  starts_with_hyphen (drop_final_hyphen s) = false.
Proof.
  destruct s as [| c [| d t]]; simpl; intros H; try reflexivity.
  - now rewrite H.
  - exact H.
Qed.

Lemma drop_final_hyphen_nil (s : jsstring) :
  drop_final_hyphen s = [] -> s = [] \/ s = [HYPHEN].
Proof.
  destruct s as [| c [| d t]]; simpl; intros H.
  - now left.
  - destruct (is_hyphen c) eqn:E; [| discriminate].
    right. now rewrite (is_hyphen_eq _ E).
  - discriminate.
Qed.

Lemma drop_final_hyphen_no_double (s : jsstring) :
  no_double_hyphen s = true ->
  no_double_hyphen (drop_final_hyphen s) = true.
Proof.
  induction s as [| c t IH]; intros H; [reflexivity |].
  destruct t as [| d t'].
  - simpl. now destruct (is_hyphen c).
  - rewrite drop_final_hyphen_cons, no_double_hyphen_cons.
    rewrite no_double_hyphen_cons in H.
    apply andb_true_iff in H as [Hc Ht].
    rewrite (IH Ht), andb_true_r.
    apply negb_true_iff. apply negb_true_iff in Hc.
    apply andb_false_iff in Hc as [Hc | Hd]; [now rewrite Hc |].
    rewrite (drop_final_hyphen_starts (d :: t') Hd). apply andb_false_r.
Qed.

Lemma drop_final_hyphen_ends (s : jsstring) :
  no_double_hyphen s = true ->
  ends_with_hyphen (drop_final_hyphen s) = false.
Proof.
  induction s as [| c t IH]; intros H; [reflexivity |].
  destruct t as [| d t'].
  - simpl. destruct (is_hyphen c) eqn:E; simpl; [reflexivity | exact E].
  - rewrite drop_final_hyphen_cons.
    rewrite no_double_hyphen_cons in H.
    apply andb_true_iff in H as [Hc Ht].
    specialize (IH Ht).
    destruct (drop_final_hyphen (d :: t')) as [| e u] eqn:Ed.
    + apply drop_final_hyphen_nil in Ed as [Ed | Ed]; [discriminate |].
      injection Ed as -> ->.
      apply negb_true_iff in Hc. apply andb_false_iff in Hc as [Hc | Hc].
      * exact Hc.
      * discriminate.
    + exact IH.
Qed.

Lemma drop_final_hyphen_id (s : jsstring) :
  ends_with_hyphen s = false -> drop_final_hyphen s = s.
Proof.
  induction s as [| c t IH]; intros H; [reflexivity |].
  destruct t as [| d t'].
  - simpl in *. now rewrite H.
  - rewrite drop_final_hyphen_cons. f_equal. apply IH. exact H.
Qed.

Lemma ends_with_hyphen_snoc (u : jsstring) (c : code_unit) :
  ends_with_hyphen (u ++ [c]) = is_hyphen c.
Proof.
  induction u as [| a u IH]; [reflexivity |].
  destruct u as [| b u']; [reflexivity | exact IH].
Qed.

Lemma starts_with_hyphen_rev (u : jsstring) :
  starts_with_hyphen (rev u) = ends_with_hyphen u.
Proof.
  destruct u as [| a u] using rev_ind; [reflexivity |].
  now rewrite rev_app_distr, ends_with_hyphen_snoc.
Qed.

Lemma no_double_hyphen_snoc (u : jsstring) :
  no_double_hyphen (u ++ [HYPHEN]) = true -> ends_with_hyphen u = false.
Proof.
  induction u as [| a u IH]; intros H; [reflexivity |].
  rewrite <- app_comm_cons, no_double_hyphen_cons in H.
  apply andb_true_iff in H as [Ha Hu].
  destruct u as [| b u'].
  - apply negb_true_iff in Ha. now rewrite andb_true_r in Ha.
  - apply IH. exact Hu.
Qed.

Lemma drop_final_hyphen_snoc (u : jsstring) (c : code_unit) :
  drop_final_hyphen (u ++ [c]) = if is_hyphen c then u else u ++ [c].
Proof.
  induction u as [| a u IH]; [simpl; now destruct (is_hyphen c) |].
  destruct u as [| b u'].
  - simpl. now destruct (is_hyphen c).
  - change ((a :: b :: u') ++ [c]) with (a :: b :: (u' ++ [c])).
    rewrite drop_final_hyphen_cons.
    change (b :: (u' ++ [c])) with ((b :: u') ++ [c]).
    rewrite IH. now destruct (is_hyphen c).
Qed.

Lemma drop_while_hyphen_id (s : jsstring) :
  starts_with_hyphen s = false -> drop_while is_hyphen s = s.
Proof.
  destruct s as [| c t]; [reflexivity |].
  simpl. now intros ->.
Qed.

(** Once no two hyphens are adjacent, dropping the final hyphen is the
    same as dropping every trailing hyphen. *)
Lemma drop_final_hyphen_trailing (s : jsstring) :
  no_double_hyphen s = true ->
  rev (drop_while is_hyphen (rev s)) = drop_final_hyphen s.
Proof.
  destruct s as [| c u _] using rev_ind; [reflexivity |].
  intros H. rewrite rev_app_distr, drop_final_hyphen_snoc. simpl.
  destruct (is_hyphen c) eqn:E.
  - rewrite (is_hyphen_eq _ E) in H.
    rewrite drop_while_hyphen_id; [apply rev_involutive |].
    rewrite starts_with_hyphen_rev. now apply no_double_hyphen_snoc.
  - simpl. now rewrite rev_involutive.
Qed.

Lemma strip_edge_trim_hyphens (s : jsstring) :
  no_double_hyphen s = true -> strip_edge_hyphens s = trim_hyphens s.
Proof.
  destruct s as [| c t]; [reflexivity |].
  intros H. unfold strip_edge_hyphens, trim_hyphens.
  pose proof H as H'. rewrite no_double_hyphen_cons in H'.
  apply andb_true_iff in H' as [Hc Ht].
  simpl drop_while. destruct (is_hyphen c) eqn:E.
  - apply negb_true_iff in Hc. simpl in Hc.
    rewrite (drop_while_hyphen_id t Hc).
    symmetry. now apply drop_final_hyphen_trailing.
  - symmetry. now apply drop_final_hyphen_trailing.
Qed.

Lemma no_double_hyphen_occurs (s : jsstring) :
  no_double_hyphen s = true -> ~ occurs [HYPHEN; HYPHEN] s.
Proof.
  intros H (a & b & E). subst s.
  induction a as [| c a IH].
  - discriminate H.
  - rewrite <- app_comm_cons, no_double_hyphen_cons in H.
    apply andb_true_iff in H as [_ H]. now apply IH.
Qed.

Lemma starts_with_hyphen_false (s : jsstring) :
  starts_with_hyphen s = false -> ~ (exists t, s = HYPHEN :: t).
Proof. intros H (t & E). subst s. discriminate H. Qed.

Lemma ends_with_hyphen_false (s : jsstring) :
  ends_with_hyphen s = false -> ~ (exists t, s = t ++ [HYPHEN]).
Proof.
  intros H (t & E). subst s. rewrite ends_with_hyphen_snoc in H.
  discriminate H.
Qed.

Section SlugifyFacts.

Variable toLowerCase : jsstring -> jsstring.

Lemma collapsed_shape (name : jsstring) :
  forallb slug_char (collapsed toLowerCase name) = true
  /\ no_double_hyphen (collapsed toLowerCase name) = true.
Proof.
  unfold collapsed, replace_runs. split.
  - apply replace_runs_from_forallb; [reflexivity |].
    apply replace_each_class.
  - apply collapse_from_shape.
Qed.

(** The shape of every slug, whatever [toLowerCase] does. *)
Lemma slugify_shape (name : jsstring) :
  forallb slug_char (slugify toLowerCase name) = true
  /\ no_double_hyphen (slugify toLowerCase name) = true
  /\ starts_with_hyphen (slugify toLowerCase name) = false
  /\ ends_with_hyphen (slugify toLowerCase name) = false.
Proof.
  change (slugify toLowerCase name) with (strip_edge_hyphens (collapsed toLowerCase name)).
  destruct (collapsed_shape name) as [Hc Hn].
  split; [now apply strip_edge_hyphens_forallb |].
  destruct (collapsed toLowerCase name) as [| c t]; [now repeat split |].
  unfold strip_edge_hyphens.
  pose proof Hn as Hn'. rewrite no_double_hyphen_cons in Hn'.
  apply andb_true_iff in Hn' as [Hd Ht].
  destruct (is_hyphen c) eqn:E.
  - apply negb_true_iff in Hd. simpl in Hd. repeat split.
    + now apply drop_final_hyphen_no_double.
    + now apply drop_final_hyphen_starts.
    + now apply drop_final_hyphen_ends.
  - repeat split.
    + now apply drop_final_hyphen_no_double.
    + apply drop_final_hyphen_starts. exact E.
    + now apply drop_final_hyphen_ends.
Qed.

Lemma slugify_refines (name : jsstring) :
  slugify toLowerCase name = spec_slugify toLowerCase name.
Proof.
  change (strip_edge_hyphens (collapsed toLowerCase name) = trim_hyphens (collapsed toLowerCase name)).
  apply strip_edge_trim_hyphens. apply collapsed_shape.
Qed.

Lemma slugify_no_space (name : jsstring) :
  forall c, In c (slugify toLowerCase name) -> is_white_space c = false.
Proof.
  intros c Hc. apply slug_char_not_space.
  destruct (slugify_shape name) as [H _].
  rewrite forallb_forall in H. now apply H.
Qed.

Hypothesis lower : lowers_ascii toLowerCase.

Lemma slugify_lowered (name : jsstring) :
  toLowerCase (slugify toLowerCase name) = slugify toLowerCase name.
Proof.
  destruct (slugify_shape name) as [H _].
  rewrite forallb_forall in H.
  rewrite lower.
  - rewrite <- (map_id (slugify toLowerCase name)) at 2.
    apply map_ext_in. intros c Hc. apply slug_char_lower. now apply H.
  - apply forallb_forall. intros c Hc. apply slug_char_ascii. now apply H.
Qed.

Lemma slugify_fixed (s : jsstring) :
  forallb slug_char s = true ->
  no_double_hyphen s = true ->
  starts_with_hyphen s = false ->
  ends_with_hyphen s = false ->
  slugify toLowerCase s = s.
Proof.
  intros Hc Hn Hs He. rewrite forallb_forall in Hc.
  assert (Hw : forall c, In c s -> is_white_space c = false)
    by (intros c Hin; apply slug_char_not_space; now apply Hc).
  unfold slugify. rewrite (trim_id s Hw).
  rewrite lower
    by (apply forallb_forall; intros c Hin; apply slug_char_ascii; now apply Hc).
  replace (map ascii_lower s) with s.
  2:{ rewrite <- (map_id s) at 1. apply map_ext_in.
      intros c Hin. symmetry. apply slug_char_lower. now apply Hc. }
  unfold replace_runs.
  rewrite (replace_runs_from_id is_white_space [HYPHEN] s Hw).
  rewrite replace_each_id
    by (intros c Hin; apply negb_false_iff; now apply Hc).
  rewrite collapse_from_id by (assumption || discriminate).
  destruct s as [| c t]; [reflexivity |].
  unfold strip_edge_hyphens. simpl in Hs. rewrite Hs.
  now apply drop_final_hyphen_id.
Qed.

End SlugifyFacts.

Lemma ascii_toLowerCase_lowers : lowers_ascii ascii_toLowerCase.
Proof. intros s _. reflexivity. Qed.

(** C1.  Whatever the project name, its slug is made of code units of
    [a-z0-9-_.] only, is left unchanged by lowercasing, holds no white
    space, neither begins nor ends with a hyphen, holds no two hyphens in
    a row, and is what the specification's pipeline (trim, lowercase,
    white-space runs to a hyphen, other code units to a hyphen, collapse,
    trim the hyphens) gives; and the slug of "My Cool App!!" is
    "my-cool-app". *)
Theorem slugify_spec (toLowerCase : jsstring -> jsstring) :
  lowers_ascii toLowerCase ->
  (forall name : jsstring,
      forallb slug_char (slugify toLowerCase name) = true
      /\ toLowerCase (slugify toLowerCase name) = slugify toLowerCase name
      /\ (forall c, In c (slugify toLowerCase name) -> is_white_space c = false)
      /\ ~ (exists t, slugify toLowerCase name = HYPHEN :: t)
      /\ ~ (exists t, slugify toLowerCase name = t ++ [HYPHEN])
      /\ ~ occurs [HYPHEN; HYPHEN] (slugify toLowerCase name)
      /\ slugify toLowerCase name = spec_slugify toLowerCase name)
  /\ slugify toLowerCase (js "My Cool App!!") = js "my-cool-app".
Proof.
  intros lower. split.
  - intros name.
    destruct (slugify_shape toLowerCase name) as (Hc & Hn & Hs & He).
    split; [exact Hc |].
    split; [now apply slugify_lowered |].
    split; [apply slugify_no_space |].
    split; [now apply starts_with_hyphen_false |].
    split; [now apply ends_with_hyphen_false |].
    split; [now apply no_double_hyphen_occurs | apply slugify_refines].
  - unfold slugify. rewrite lower by reflexivity. reflexivity.
Qed.

Lemma slugify_spec_witness :
  slugify ascii_toLowerCase (js "My Cool App!!") = js "my-cool-app".
Proof.
  exact (proj2 (slugify_spec ascii_toLowerCase_lowers)).
Defined.

(** C9.  [slugify] is idempotent: a slug is its own slug. *)
Theorem slugify_idempotent (toLowerCase : jsstring -> jsstring) :
  lowers_ascii toLowerCase ->
  forall s : jsstring,
    slugify toLowerCase (slugify toLowerCase s) = slugify toLowerCase s.
Proof.
  intros lower s.
  destruct (slugify_shape toLowerCase s) as (Hc & Hn & Hs & He).
  now apply slugify_fixed.
Qed.

Lemma slugify_idempotent_witness :
  slugify ascii_toLowerCase (slugify ascii_toLowerCase (js "  My--Cool   App!! "))
  = slugify ascii_toLowerCase (js "  My--Cool   App!! ").
Proof.
  exact (slugify_idempotent ascii_toLowerCase_lowers (js "  My--Cool   App!! ")).
Defined.

(** ** The fetch specification *)

Lemma jsstring_eqb_eq (a b : jsstring) : jsstring_eqb a b = true <-> a = b.
Proof.
  revert b. induction a as [| x a IH]; intros [| y b]; simpl;
    try (split; [discriminate | discriminate]); [tauto |].
  rewrite andb_true_iff, N.eqb_eq, IH. split.
  - now intros [-> ->].
  - intros E. now injection E.
Qed.

Lemma jsstring_eqb_refl (a : jsstring) : jsstring_eqb a a = true.
Proof. now apply jsstring_eqb_eq. Qed.

Lemma drop_while_slash_split (s : jsstring) :
  exists n, s = repeat SLASH n ++ drop_while is_slash s.
Proof.
  induction s as [| c t [n IH]]; [now exists 0%nat |].
  simpl. destruct (is_slash c) eqn:E.
  - exists (S n). apply N.eqb_eq in E. subst c. simpl. now f_equal.
  - now exists 0%nat.
Qed.

Lemma drop_while_slash_head (s : jsstring) :
  starts_with [SLASH] (drop_while is_slash s) = false.
Proof.
  induction s as [| c t IH]; [reflexivity |].
  change (drop_while is_slash (c :: t))
    with (if is_slash c then drop_while is_slash t else c :: t).
  destruct (is_slash c) eqn:E; [exact IH |].
  unfold is_slash in E. apply N.eqb_neq in E.
  change (starts_with [SLASH] (c :: t)) with ((SLASH =? c) && starts_with [] t).
  destruct (N.eqb_spec SLASH c) as [e | ne]; [| reflexivity].
  symmetry in e. contradiction.
Qed.

Lemma rev_repeat_slash (n : nat) : rev (repeat SLASH n) = repeat SLASH n.
Proof.
  induction n as [| n IH]; [reflexivity |].
  simpl. rewrite IH. symmetry. apply repeat_cons.
Qed.

(** What the two stripping expressions do: a run of separators goes, and
    what is left has none at that end. *)
Lemma strip_leading_slashes_spec (s : jsstring) :
  (exists n, s = repeat SLASH n ++ strip_leading_slashes s)
  /\ starts_with [SLASH] (strip_leading_slashes s) = false.
Proof.
  split; [apply drop_while_slash_split | apply drop_while_slash_head].
Qed.

Lemma strip_trailing_slashes_spec (s : jsstring) :
  (exists n, s = strip_trailing_slashes s ++ repeat SLASH n)
  /\ starts_with [SLASH] (rev (strip_trailing_slashes s)) = false.
Proof.
  unfold strip_trailing_slashes. split.
  - destruct (drop_while_slash_split (rev s)) as [n E]. exists n.
    rewrite <- (rev_involutive s) at 1. rewrite E at 1.
    now rewrite rev_app_distr, rev_repeat_slash.
  - rewrite rev_involutive. apply drop_while_slash_head.
Qed.

(** C4, as worded, fails: an empty subpath is replaced by the default
    before anything else; the descriptor is trimmed of white space; and
    the first variant compares with ["."] after the stripping. *)
Lemma fetch_spec_counterexample :
  Bin.repoSpec (mkOptions (Some []) (Some (js "owner/repo")) false false)
    <> worded_spec (js "owner/repo") []
  /\ Alt.repoSpec (mkOptions (Some []) (Some (js "owner/repo")) false false)
    <> worded_spec (js "owner/repo") []
  /\ Bin.repoSpec (mkOptions (Some (js "src")) (Some (js " owner/repo ")) false false)
    <> worded_spec (js " owner/repo ") (js "src")
  /\ Alt.repoSpec (mkOptions (Some (js "src")) (Some (js " owner/repo ")) false false)
    <> worded_spec (js " owner/repo ") (js "src")
  /\ Bin.repoSpec (mkOptions (Some (js "/.")) (Some (js "owner/repo")) false false)
    <> worded_spec (js "owner/repo") (js "/.").
Proof. repeat split; discriminate. Qed.

(** C4, amended.  Let the descriptor be the [--repo] value trimmed of
    white space and the subpath the [--template] value, or "template"
    when that is empty.  With [base] the descriptor without its trailing
    separators and [sub] the subpath without its leading ones, the second
    variant's fetch spec is [base] when the subpath is ".", and
    [base/sub] otherwise; the first variant's is [base] when [sub] is
    ".", and [base/sub] otherwise.  With [--template .] both are
    [base]. *)
Theorem fetch_spec_amended (o : options) :
  (exists (n m : nat) (base sub : jsstring),
      trim (or_default (repo o) []) = base ++ repeat SLASH n
      /\ starts_with [SLASH] (rev base) = false
      /\ or_default (template o) DEFAULT_TEMPLATE = repeat SLASH m ++ sub
      /\ starts_with [SLASH] sub = false
      /\ repoBase o = base
      /\ Alt.repoSpec o
         = (if jsstring_eqb (or_default (template o) DEFAULT_TEMPLATE) DOT
            then base else base ++ [SLASH] ++ sub)
      /\ Bin.repoSpec o
         = (if jsstring_eqb sub DOT then base else base ++ [SLASH] ++ sub))
  /\ Alt.repoSpec o = worded_spec (trim (or_default (repo o) []))
                        (or_default (template o) DEFAULT_TEMPLATE)
  /\ Bin.repoSpec (mkOptions (Some DOT) (repo o) (install o) (noGit o))
     = repoBase o
  /\ Alt.repoSpec (mkOptions (Some DOT) (repo o) (install o) (noGit o))
     = repoBase o.
Proof.
  split; [| repeat split].
  destruct (strip_trailing_slashes_spec (trim (or_default (repo o) [])))
    as [[n En] Hb].
  destruct (strip_leading_slashes_spec (or_default (template o) DEFAULT_TEMPLATE))
    as [[m Em] Hs].
  exists n, m, (repoBase o),
    (strip_leading_slashes (or_default (template o) DEFAULT_TEMPLATE)).
  repeat split; assumption.
Qed.

(** ** The monad *)

Lemma bind_ret_l {A B} (a : A) (k : A -> io B) : bind (ret a) k = k a.
Proof. unfold bind, ret. now destruct (k a). Qed.

Lemma bind_ret_r {A} (m : io A) : bind m ret = m.
Proof.
  destruct m as [t [a | e | n]]; simpl; [| reflexivity | reflexivity].
  now rewrite app_nil_r.
Qed.

Lemma bind_assoc {A B C} (m : io A) (k : A -> io B) (h : B -> io C) :
  bind (bind m k) h = bind m (fun a => bind (k a) h).
Proof.
  destruct m as [t [a | e | n]]; simpl; [| reflexivity | reflexivity].
  destruct (k a) as [t' [b | e | n]]; simpl; [| reflexivity | reflexivity].
  destruct (h b) as [t'' c]. now rewrite app_assoc.
Qed.

Lemma bind_normal {A B} (t : list event) (a : A) (k : A -> io B) :
  bind (t, Normal a) k = (t ++ fst (k a), snd (k a)).
Proof. simpl. now destruct (k a). Qed.


Lemma bind_exit {A B} (t : list event) (n : Z) (k : A -> io B) :
  bind (t, Exit n) k = (t, Exit n).
Proof. reflexivity. Qed.

Lemma try_catch_normal {A} (t : list event) (a : A) (h : error -> io A) :
  try_catch (t, Normal a) h = (t, Normal a).
Proof. reflexivity. Qed.


(** ** C10: the installer probe *)

(** C10.  [detectInstaller] asks pnpm for its version first and answers
    "pnpm" when that succeeds; only otherwise it asks yarn and answers
    "yarn" when that succeeds; when both probes fail it answers "npm".
    It always returns, and never anything but one of these three. *)
Theorem detectInstaller_order (w : world) :
  Alt.detectInstaller w
  = match execa w Alt.PNPM [js "--version"] None with
    | Ok _ => ([Execa Alt.PNPM [js "--version"] None], Normal Alt.PNPM)
    | Fail _ =>
        match execa w Alt.YARN [js "--version"] None with
        | Ok _ =>
            ([Execa Alt.PNPM [js "--version"] None;
              Execa Alt.YARN [js "--version"] None], Normal Alt.YARN)
        | Fail _ =>
            ([Execa Alt.PNPM [js "--version"] None;
              Execa Alt.YARN [js "--version"] None], Normal Alt.NPM)
        end
    end
  /\ exists t r, Alt.detectInstaller w = (t, Normal r)
                 /\ (r = Alt.PNPM \/ r = Alt.YARN \/ r = Alt.NPM).
Proof.
  unfold Alt.detectInstaller, call, try_catch, bind, ret.
  destruct (execa w Alt.PNPM [js "--version"] None);
    [| destruct (execa w Alt.YARN [js "--version"] None)];
    (split; [reflexivity |]); eexists; eexists;
    (split; [reflexivity |]); auto.
Qed.

(** ** The stages before the fetch *)

Lemma resolveProjectName_quiet (w : world) (projectName : option jsstring) :
  forallb (fun e => negb (mutating e))
    (trace (resolveProjectName w projectName)) = true.
Proof.
  unfold resolveProjectName, ask_name.
  destruct projectName as [[| c t] |]; try reflexivity;
    destruct (find validate (typed_names w)); reflexivity.
Qed.

Lemma resolveProjectName_positional (w : world) (c : code_unit) (t : jsstring) :
  resolveProjectName w (Some (c :: t)) = ([], Normal (c :: t)).
Proof. reflexivity. Qed.

(** What the guard does when the directory holds something and the user
    does not agree. *)
Lemma guardTarget_declined (w : world) (name : jsstring)
    (files : list jsstring) :
  fs_pathExists w (targetDir w name) = true ->
  fs_readdir w (targetDir w name) = Ok files ->
  files <> [] ->
  confirm_overwrite w = Answered false \/ confirm_overwrite w = Cancelled ->
  guardTarget w name
  = ([PathExists (targetDir w name); Readdir (targetDir w name);
      PromptConfirm (overwrite_question name);
      ConsoleLog (match confirm_overwrite w with
                  | Cancelled => js "Aborted."
                  | Answered _ => js "Aborting."
                  end)],
     Exit 1).
Proof.
  intros He Hr Hf Hc. unfold guardTarget, query, call, bind.
  rewrite He, Hr. destruct files as [| f fs]; [contradiction |].
  destruct Hc as [-> | ->]; reflexivity.
Qed.

Lemma prelude_declined (w : world) (projectName : option jsstring)
    (name : jsstring) (t0 : list event) (files : list jsstring) :
  resolveProjectName w projectName = (t0, Normal name) ->
  fs_pathExists w (targetDir w name) = true ->
  fs_readdir w (targetDir w name) = Ok files ->
  files <> [] ->
  confirm_overwrite w = Answered false \/ confirm_overwrite w = Cancelled ->
  prelude w projectName
  = (t0 ++ [PathExists (targetDir w name); Readdir (targetDir w name);
            PromptConfirm (overwrite_question name);
            ConsoleLog (match confirm_overwrite w with
                        | Cancelled => js "Aborted."
                        | Answered _ => js "Aborting."
                        end)],
     Exit 1).
Proof.
  intros Hn He Hr Hf Hc. unfold prelude. rewrite Hn, bind_normal.
  rewrite (guardTarget_declined w name He Hr Hf Hc). reflexivity.
Qed.

(** C3.  When the target directory exists, its listing is not empty and
    the overwrite question is answered no or cancelled, both variants end
    with [process.exit(1)] right after the abort notice: the run has asked
    whether the path exists, listed it and prompted, and has removed,
    written, fetched and spawned nothing. *)
Theorem declined_overwrite_aborts (toLowerCase : jsstring -> jsstring)
    (w : world) (projectName : option jsstring) (o : options)
    (name : jsstring) (t0 : list event) (files : list jsstring) :
  resolveProjectName w projectName = (t0, Normal name) ->
  fs_pathExists w (targetDir w name) = true ->
  fs_readdir w (targetDir w name) = Ok files ->
  files <> [] ->
  confirm_overwrite w = Answered false \/ confirm_overwrite w = Cancelled ->
  Bin.action toLowerCase w projectName o
  = (t0 ++ [PathExists (targetDir w name); Readdir (targetDir w name);
            PromptConfirm (overwrite_question name);
            ConsoleLog (match confirm_overwrite w with
                        | Cancelled => js "Aborted."
                        | Answered _ => js "Aborting."
                        end)],
     Exit 1)
  /\ Alt.action toLowerCase w projectName o
     = Bin.action toLowerCase w projectName o
  /\ exit_code (Bin.action toLowerCase w projectName o) = 1%Z
  /\ forallb (fun e => negb (mutating e))
       (trace (Bin.action toLowerCase w projectName o)) = true.
Proof.
  intros Hn He Hr Hf Hc.
  pose proof (prelude_declined w projectName Hn He Hr Hf Hc) as Hp.
  assert (Hb : Bin.action toLowerCase w projectName o
               = (t0 ++ [PathExists (targetDir w name);
                         Readdir (targetDir w name);
                         PromptConfirm (overwrite_question name);
                         ConsoleLog (match confirm_overwrite w with
                                     | Cancelled => js "Aborted."
                                     | Answered _ => js "Aborting."
                                     end)],
                  Exit 1))
    by (unfold Bin.action, Bin.body; now rewrite Hp).
  assert (Ha : Alt.action toLowerCase w projectName o
               = Bin.action toLowerCase w projectName o)
    by (rewrite Hb; unfold Alt.action, Alt.body; now rewrite Hp).
  repeat split; try assumption; rewrite Hb; [reflexivity |].
  unfold trace. simpl fst. rewrite forallb_app.
  pose proof (resolveProjectName_quiet w projectName) as Hq.
  rewrite Hn in Hq. unfold trace in Hq. simpl in Hq. now rewrite Hq.
Qed.

Lemma declined_overwrite_aborts_witness :
  exit_code (Bin.action ascii_toLowerCase busy_world (Some (js "app"))
               bin_defaults) = 1%Z
  /\ exit_code (Alt.action ascii_toLowerCase busy_world (Some (js "app"))
                  alt_defaults) = 1%Z.
Proof.
  assert (Hf : [js "README.md"] <> []) by discriminate.
  split.
  - exact (proj1 (proj2 (proj2
      (@declined_overwrite_aborts ascii_toLowerCase busy_world
         (Some (js "app")) bin_defaults (js "app") [] [js "README.md"]
         eq_refl eq_refl eq_refl Hf (or_introl eq_refl))))).
  - rewrite (proj1 (proj2
      (@declined_overwrite_aborts ascii_toLowerCase busy_world
         (Some (js "app")) alt_defaults (js "app") [] [js "README.md"]
         eq_refl eq_refl eq_refl Hf (or_introl eq_refl)))).
    exact (proj1 (proj2 (proj2
      (@declined_overwrite_aborts ascii_toLowerCase busy_world
         (Some (js "app")) alt_defaults (js "app") [] [js "README.md"]
         eq_refl eq_refl eq_refl Hf (or_introl eq_refl))))).
Defined.

(** C6: a name given on the command line reaches the later stages as it
    was typed.  The blanks around it stay, in the target directory too,
    and a name of blanks only is accepted; the prompted name, for
    comparison, is trimmed. *)
Theorem positional_name_kept_verbatim (w : world) :
  resolveProjectName w (Some (js " my app ")) = ([], Normal (js " my app "))
  /\ trim (js " my app ") = js "my app"
  /\ targetDir w (js " my app ") = path_resolve w (cwd w) (js " my app ")
  /\ hd_error (trace (Bin.action ascii_toLowerCase calm_world
                         (Some (js " my app ")) bin_defaults))
     = Some (PathExists (js "/work/ my app "))
  /\ hd_error (trace (Alt.action ascii_toLowerCase calm_world
                         (Some (js " my app ")) alt_defaults))
     = Some (PathExists (js "/work/ my app "))
  /\ resolveProjectName w (Some (js "  ")) = ([], Normal (js "  "))
  /\ trim (js "  ") = []
  /\ resolveProjectName
       (mkWorld (cwd w) (path_resolve w) (path_join w) [js " my app "]
          (confirm_overwrite w) (fs_pathExists w) (fs_readdir w)
          (fs_remove w) (fs_readFile w) (fs_writeFile w) (degit_new w)
          (degit_clone w) (import_execa w) (execa w))
       None
     = ([PromptText (js "Project name:")], Normal (js "my app")).
Proof. repeat split. Qed.

(** ** Properties of all the events of a computation *)

Section AllEvents.

Variable P : event -> bool.

Lemma all_bind {A B} (m : io A) (k : A -> io B) :
  forallb P (trace m) = true ->
  (forall a, snd m = Normal a -> forallb P (trace (k a)) = true) ->
  forallb P (trace (bind m k)) = true.
Proof.
  destruct m as [t [a | e | n]]; simpl; intros Ht Hk; try exact Ht.
  specialize (Hk a eq_refl). destruct (k a) as [t' c]. simpl in *.
  now rewrite forallb_app, Ht, Hk.
Qed.

Lemma all_try_catch {A} (m : io A) (h : error -> io A) :
  forallb P (trace m) = true ->
  (forall e, forallb P (trace (h e)) = true) ->
  forallb P (trace (try_catch m h)) = true.
Proof.
  destruct m as [t [a | e | n]]; simpl; intros Ht Hh; try exact Ht.
  specialize (Hh e). destruct (h e) as [t' c]. simpl in *.
  now rewrite forallb_app, Ht, Hh.
Qed.

Lemma all_call {A} (ev : event) (r : result A) :
  P ev = true -> forallb P (trace (call ev r)) = true.
Proof. intros H. simpl. now rewrite H. Qed.

Lemma all_emit (ev : event) : P ev = true -> forallb P (trace (emit ev)) = true.
Proof. intros H. simpl. now rewrite H. Qed.

End AllEvents.

Lemma bind_ext {A B} (m : io A) (k k' : A -> io B) :
  (forall a, k a = k' a) -> bind m k = bind m k'.
Proof.
  intros H. destruct m as [t [a | e | n]]; simpl; try reflexivity.
  now rewrite H.
Qed.

(** Every event of a stage passes [P]: one rule per construct. *)
Ltac all_events :=
  repeat first
    [ reflexivity
    | apply all_bind; [| intros ? ?]
    | apply all_try_catch; [| intros ?]
    | apply all_call
    | apply all_emit
    | match goal with
      | |- context [if ?b then _ else _] => destruct b
      | |- context [match ?x with _ => _ end] => destruct x
      end ].

Lemma prelude_no_file_access (w : world) (projectName : option jsstring) :
  forallb no_file_access (trace (prelude w projectName)) = true.
Proof.
  unfold prelude, resolveProjectName, guardTarget, ask_name, query.
  all_events.
Qed.

Lemma bin_fetch_no_file_access (w : world) (o : options) (name : jsstring) :
  forallb no_file_access (trace (Bin.fetchTemplate w o name)) = true.
Proof.
  unfold Bin.fetchTemplate, Bin.tryClone, failed_clone_lines, throw.
  all_events.
Qed.

Lemma alt_fetch_no_file_access (w : world) (o : options) (name : jsstring) :
  forallb no_file_access (trace (Alt.fetchTemplate w o name)) = true.
Proof.
  unfold Alt.fetchTemplate, failed_clone_lines, throw.
  all_events.
Qed.

Lemma bin_install_no_file_access (w : world) (o : options) (name : jsstring) :
  forallb no_file_access (trace (Bin.installDependencies w o name)) = true.
Proof.
  unfold Bin.installDependencies, throw.
  all_events.
Qed.

Lemma alt_install_no_file_access (w : world) (o : options) (name : jsstring) :
  forallb no_file_access (trace (Alt.installDependencies w o name)) = true.
Proof.
  unfold Alt.installDependencies, Alt.detectInstaller, throw.
  all_events.
Qed.

Lemma bin_git_no_file_access (w : world) (o : options) (name : jsstring) :
  forallb no_file_access (trace (Bin.initGit w o name)) = true.
Proof.
  unfold Bin.initGit.
  all_events.
Qed.

Lemma alt_git_no_file_access (w : world) (o : options) (name : jsstring) :
  forallb no_file_access (trace (Alt.initGit w o name)) = true.
Proof.
  unfold Alt.initGit.
  all_events.
Qed.

Lemma summary_no_file_access (o : options) (name : jsstring) :
  forallb no_file_access (trace (summary o name)) = true.
Proof. reflexivity. Qed.

Lemma report_no_file_access (e : error) :
  forallb no_file_access (trace (report e)) = true.
Proof. reflexivity. Qed.

Lemma rewritePackage_absent (toLowerCase : jsstring -> jsstring) (w : world)
    (token name : jsstring) :
  fs_pathExists w (pkgPath w name) = false ->
  rewritePackage toLowerCase w token name
  = ([PathExists (pkgPath w name)], Normal tt).
Proof.
  intros H. unfold rewritePackage, query, bind. now rewrite H.
Qed.

Lemma prelude_name (w : world) (projectName : option jsstring)
    (name a : jsstring) (t0 : list event) :
  resolveProjectName w projectName = (t0, Normal name) ->
  snd (prelude w projectName) = Normal a -> a = name.
Proof.
  intros Hn. unfold prelude. rewrite Hn, bind_normal.
  destruct (guardTarget w name) as [t [[] | e | n]]; simpl;
    intros H; congruence.
Qed.

(** ** C8: no manifest *)

(** C8.  When no [package.json] is at the root of the target directory,
    the manifest stage asks whether it exists and does nothing else: it
    reads nothing, writes nothing and returns normally, so the run goes
    on with the next stage; and no file is read or written anywhere in
    the run, in either variant. *)
Theorem absent_manifest_skipped (v : variant)
    (toLowerCase : jsstring -> jsstring) (w : world)
    (projectName : option jsstring) (o : options) (name : jsstring)
    (t0 : list event) :
  resolveProjectName w projectName = (t0, Normal name) ->
  fs_pathExists w (pkgPath w name) = false ->
  rewritePackage toLowerCase w (name_token_of v) name
  = ([PathExists (pkgPath w name)], Normal tt)
  /\ forallb no_file_access
       (trace (action_of v toLowerCase w projectName o)) = true.
Proof.
  intros Hn He. split; [now apply rewritePackage_absent |].
  destruct v; unfold action_of, Bin.action, Bin.body, Alt.action, Alt.body.
  - apply all_try_catch; [| apply report_no_file_access].
    apply all_bind; [apply prelude_no_file_access |].
    intros a Ha. rewrite (prelude_name w projectName Hn Ha).
    apply all_bind; [apply bin_fetch_no_file_access | intros _ _].
    rewrite (rewritePackage_absent toLowerCase w Bin.NAME_TOKEN name He).
    apply all_bind; [reflexivity | intros _ _].
    apply all_bind; [apply bin_install_no_file_access | intros _ _].
    apply all_bind; [apply bin_git_no_file_access | intros _ _].
    apply summary_no_file_access.
  - apply all_try_catch; [| apply report_no_file_access].
    apply all_bind; [apply prelude_no_file_access |].
    intros a Ha. rewrite (prelude_name w projectName Hn Ha).
    apply all_bind; [apply alt_fetch_no_file_access | intros _ _].
    rewrite (rewritePackage_absent toLowerCase w Alt.NAME_TOKEN name He).
    apply all_bind; [reflexivity | intros _ _].
    apply all_bind; [apply alt_install_no_file_access | intros _ _].
    apply all_bind; [apply alt_git_no_file_access | intros _ _].
    apply summary_no_file_access.
Qed.

Lemma absent_manifest_skipped_witness :
  rewritePackage ascii_toLowerCase calm_world Alt.NAME_TOKEN (js "app")
  = ([PathExists (js "/work/app/package.json")], Normal tt)
  /\ forallb no_file_access
       (trace (Alt.action ascii_toLowerCase calm_world (Some (js "app"))
                 alt_defaults)) = true.
Proof.
  exact (@absent_manifest_skipped SecondScript ascii_toLowerCase calm_world
           (Some (js "app")) alt_defaults (js "app") [] eq_refl eq_refl).
Defined.

(** ** C7: the version-control stage *)

Ltac answer_cases :=
  repeat match goal with
         | |- context [match ?x with _ => _ end] =>
             match type of x with
             | result _ => destruct x; cbn
             end
         end.

Lemma bin_initGit_returns (w : world) (o : options) (name : jsstring) :
  snd (Bin.initGit w o name) = Normal tt
  /\ trace (Bin.initGit w o name)
     = removelast (trace (Bin.initGit w o name))
       ++ [ConsoleLog (final_log (trace (Bin.initGit w o name)))]
  /\ forallb is_spawn (removelast (trace (Bin.initGit w o name))) = true
  /\ In (final_log (trace (Bin.initGit w o name))) (git_messages BinIndex).
Proof.
  unfold Bin.initGit, call, emit, try_catch, bind.
  destruct (noGit o); cbn; answer_cases; repeat split;
    first [reflexivity | cbn; tauto].
Qed.

Lemma alt_initGit_returns (w : world) (o : options) (name : jsstring) :
  snd (Alt.initGit w o name) = Normal tt
  /\ trace (Alt.initGit w o name)
     = removelast (trace (Alt.initGit w o name))
       ++ [ConsoleLog (final_log (trace (Alt.initGit w o name)))]
  /\ forallb is_spawn (removelast (trace (Alt.initGit w o name))) = true
  /\ In (final_log (trace (Alt.initGit w o name))) (git_messages SecondScript).
Proof.
  unfold Alt.initGit, call, emit, try_catch, bind.
  destruct (noGit o); cbn; answer_cases; repeat split;
    first [reflexivity | cbn; tauto].
Qed.

Lemma bin_body_scaffold (toLowerCase : jsstring -> jsstring) (w : world)
    (projectName : option jsstring) (o : options) :
  Bin.body toLowerCase w projectName o
  = bind (bin_scaffold toLowerCase w projectName o)
      (fun name => bind (Bin.initGit w o name) (fun _ => summary o name)).
Proof.
  unfold Bin.body, bin_scaffold.
  rewrite bind_assoc. apply bind_ext. intros name.
  rewrite bind_assoc. apply bind_ext. intros _.
  rewrite bind_assoc. apply bind_ext. intros _.
  rewrite bind_assoc. apply bind_ext. intros _.
  now rewrite bind_ret_l.
Qed.

Lemma alt_body_scaffold (toLowerCase : jsstring -> jsstring) (w : world)
    (projectName : option jsstring) (o : options) :
  Alt.body toLowerCase w projectName o
  = bind (alt_scaffold toLowerCase w projectName o)
      (fun name => bind (Alt.initGit w o name) (fun _ => summary o name)).
Proof.
  unfold Alt.body, alt_scaffold.
  rewrite bind_assoc. apply bind_ext. intros name.
  rewrite bind_assoc. apply bind_ext. intros _.
  rewrite bind_assoc. apply bind_ext. intros _.
  rewrite bind_assoc. apply bind_ext. intros _.
  now rewrite bind_ret_l.
Qed.

(** C7.  In a run that has come to the version-control stage, the stage
    returns normally whatever [git init], [git add] and [git commit] do:
    it starts subprocesses, prints one [console.log] line last (one of
    four informational messages), and the run goes on to the two lines of
    the summary and ends with exit code 0. *)
Theorem git_failures_tolerated (v : variant)
    (toLowerCase : jsstring -> jsstring) (w : world)
    (projectName : option jsstring) (o : options) (name : jsstring)
    (t0 : list event) :
  scaffold_of v toLowerCase w projectName o = (t0, Normal name) ->
  snd (initGit_of v w o name) = Normal tt
  /\ trace (initGit_of v w o name)
     = removelast (trace (initGit_of v w o name))
       ++ [ConsoleLog (final_log (trace (initGit_of v w o name)))]
  /\ forallb is_spawn (removelast (trace (initGit_of v w o name))) = true
  /\ In (final_log (trace (initGit_of v w o name))) (git_messages v)
  /\ action_of v toLowerCase w projectName o
     = (t0 ++ trace (initGit_of v w o name)
           ++ [ConsoleLog (NL ++ js "Done!"); ConsoleLog (next_steps o name)],
        Normal tt)
  /\ exit_code (action_of v toLowerCase w projectName o) = 0%Z.
Proof.
  intros Hs.
  assert (Hg : snd (initGit_of v w o name) = Normal tt
               /\ trace (initGit_of v w o name)
                  = removelast (trace (initGit_of v w o name))
                    ++ [ConsoleLog (final_log (trace (initGit_of v w o name)))]
               /\ forallb is_spawn
                    (removelast (trace (initGit_of v w o name))) = true
               /\ In (final_log (trace (initGit_of v w o name)))
                    (git_messages v))
    by (destruct v; [apply bin_initGit_returns | apply alt_initGit_returns]).
  destruct Hg as (Hr & Hl & Hp & Hm).
  assert (Ha : action_of v toLowerCase w projectName o
               = (t0 ++ trace (initGit_of v w o name)
                     ++ [ConsoleLog (NL ++ js "Done!");
                         ConsoleLog (next_steps o name)],
                  Normal tt)).
  { destruct v; simpl in *.
    - unfold Bin.action. rewrite bin_body_scaffold, Hs, bind_normal.
      destruct (Bin.initGit w o name) as [tg c]. simpl in Hr. subst c.
      reflexivity.
    - unfold Alt.action. rewrite alt_body_scaffold, Hs, bind_normal.
      destruct (Alt.initGit w o name) as [tg c]. simpl in Hr. subst c.
      reflexivity. }
  repeat split; try assumption. now rewrite Ha.
Qed.

Lemma git_failures_tolerated_witness :
  exit_code (Bin.action ascii_toLowerCase bare_world (Some (js "app"))
               bin_defaults) = 0%Z
  /\ final_log (trace (Bin.initGit bare_world bin_defaults (js "app")))
     = js "Git init failed (git may be missing). Continuing without git.".
Proof.
  split; [| reflexivity].
  exact (proj2 (proj2 (proj2 (proj2 (proj2
    (@git_failures_tolerated BinIndex ascii_toLowerCase bare_world
       (Some (js "app")) bin_defaults (js "app") _ eq_refl)))))).
Defined.

(** ** C2: the fetch and its fallback *)


Lemma strip_prefix_split (p s : jsstring) :
  starts_with p s = true -> s = p ++ strip_prefix p s.
Proof.
  unfold strip_prefix. intros H. rewrite H. revert s H.
  induction p as [| a p IH]; intros s H; [reflexivity |].
  destruct s as [| b s]; [discriminate |].
  simpl in H. apply andb_true_iff in H as [Hab Hp].
  apply N.eqb_eq in Hab. subst b. simpl. f_equal. now apply IH.
Qed.









(** ** C5: the substitutions in the manifest *)

Lemma starts_with_self (p b : jsstring) : starts_with p (p ++ b) = true.
Proof.
  induction p as [| a p IH]; [reflexivity |].
  simpl. now rewrite N.eqb_refl.
Qed.

Lemma starts_with_app (p a b : jsstring) :
  starts_with p a = true -> starts_with p (a ++ b) = true.
Proof.
  intros H. rewrite (@strip_prefix_split p a H), <- app_assoc.
  apply starts_with_self.
Qed.

Lemma occurs_nil (q : jsstring) : occurs q [] -> q = [].
Proof.
  intros (a & b & E). symmetry in E.
  apply app_eq_nil in E as [_ E]. now apply app_eq_nil in E as [E _].
Qed.

Lemma occurs_app_l (q a b : jsstring) : occurs q a -> occurs q (a ++ b).
Proof.
  intros (x & y & ->). exists x, (y ++ b). now rewrite <- !app_assoc.
Qed.

Lemma occurs_app_r (q a b : jsstring) : occurs q b -> occurs q (a ++ b).
Proof.
  intros (x & y & ->). exists (a ++ x), y. now rewrite <- app_assoc.
Qed.

Lemma occurs_cons (q : jsstring) (c : code_unit) (l : jsstring) :
  occurs q (c :: l) -> starts_with q (c :: l) = true \/ occurs q l.
Proof.
  intros ([| a x] & y & E).
  - left. simpl in E. rewrite E. apply starts_with_self.
  - right. injection E as _ E. now exists x, y.
Qed.

(** An occurrence in [a ++ c :: b] lies in [a], lies in [b], or covers
    [c]. *)
Lemma occurs_around (q a b : jsstring) (c : code_unit) :
  occurs q (a ++ c :: b) -> In c q \/ occurs q a \/ occurs q b.
Proof.
  intros (x & y & E). symmetry in E.
  apply app_eq_app in E as [l [[Hx Hl] | [Ha Hl]]].
  - destruct l as [| d l].
    + simpl in Hl. destruct q as [| d q].
      * right. left. exists a, []. now rewrite app_nil_r.
      * left. injection Hl as -> _. now left.
    + right. right. injection Hl as _ ->. now exists l, y.
  - symmetry in Hl. apply app_eq_app in Hl as [l2 [[Hl2 Hy] | [Hq Hc]]].
    + right. left. subst a l. exists x, l2. reflexivity.
    + destruct l2 as [| d l2].
      * right. left. subst a. rewrite app_nil_r in Hq. subst l.
        exists x, []. now rewrite app_nil_r.
      * left. injection Hc as -> _. subst q. apply in_or_app. right. now left.
Qed.

Lemma disjoint_chars_spec (a b : jsstring) :
  disjoint_chars a b = true -> forall c, In c a -> ~ In c b.
Proof.
  unfold disjoint_chars. rewrite forallb_forall. intros H c Ha Hb.
  specialize (H c Ha). apply negb_true_iff in H.
  assert (existsb (N.eqb c) b = true) as E
    by (apply existsb_exists; exists c; split; [exact Hb | apply N.eqb_refl]).
  congruence.
Qed.

Lemma disjoint_chars_app (a b1 b2 : jsstring) :
  disjoint_chars a (b1 ++ b2) = true ->
  disjoint_chars a b1 = true /\ disjoint_chars a b2 = true.
Proof.
  unfold disjoint_chars. rewrite !forallb_forall. intros H.
  split; intros c Hc; specialize (H c Hc); rewrite existsb_app in H;
    apply negb_true_iff in H; apply orb_false_iff in H as [H1 H2];
    now apply negb_true_iff.
Qed.

Lemma occurs_past (q r x : jsstring) :
  (forall c, In c r -> ~ In c q) -> occurs q (r ++ x) -> occurs q x.
Proof.
  induction r as [| c r IH]; intros Hd H; [exact H |].
  apply (@occurs_around q [] (r ++ x) c) in H as [H | [H | H]].
  - exfalso. apply (Hd c); [now left | exact H].
  - apply occurs_nil in H. subst q. now exists [], x.
  - apply IH; [| exact H]. intros d Hin. apply Hd. now right.
Qed.

Lemma join_cons (sep : jsstring) (c : code_unit) (l0 : jsstring)
    (ls : list jsstring) :
  join sep (c :: l0) ls = c :: join sep l0 ls.
Proof. destruct ls; reflexivity. Qed.

Lemma join_head (sep l0 : jsstring) (ls : list jsstring) :
  exists rest, join sep l0 ls = l0 ++ rest.
Proof.
  destruct ls as [| l1 ls]; simpl.
  - exists []. now rewrite app_nil_r.
  - now eexists.
Qed.

(** An occurrence of [q] in pieces joined by a text that shares no code
    unit with [q] lies in one piece. *)
Lemma occurs_join_piece (q r : jsstring) (ls : list jsstring) :
  r <> [] ->
  (forall c, In c r -> ~ In c q) ->
  forall l0, occurs q (join r l0 ls) -> Exists (occurs q) (l0 :: ls).
Proof.
  intros Hr Hd. induction ls as [| l1 ls IH]; intros l0 H.
  - now constructor.
  - simpl in H. destruct r as [| c r]; [contradiction |].
    simpl in H. apply occurs_around in H as [H | [H | H]].
    + exfalso. apply (Hd c); [now left | exact H].
    + now constructor.
    + constructor 2. apply IH. apply occurs_past with (r := r); [| exact H].
      intros d Hin. apply Hd. now right.
Qed.

Lemma occurs_in_join (q sep : jsstring) (ls : list jsstring) :
  forall l0, Exists (occurs q) (l0 :: ls) -> occurs q (join sep l0 ls).
Proof.
  induction ls as [| l1 ls IH]; intros l0 H.
  - inversion H as [? ? H0 | ? ? H0]; [exact H0 | inversion H0].
  - simpl. inversion H as [? ? H0 | ? ? H0].
    + now apply occurs_app_l.
    + apply occurs_app_r, occurs_app_r. now apply IH.
Qed.

Lemma getSubstitution_plain (matched before after templ : jsstring) :
  has_dollar templ = false ->
  getSubstitution matched before after templ = templ.
Proof.
  unfold has_dollar. induction templ as [| c t IH]; intros H; [reflexivity |].
  change (existsb (N.eqb DOLLAR) (c :: t))
    with ((DOLLAR =? c) || existsb (N.eqb DOLLAR) t) in H.
  apply orb_false_iff in H as [Hc Ht].
  cbn [getSubstitution]. rewrite N.eqb_sym, Hc. f_equal. now apply IH.
Qed.

Lemma replace_all_from_skip (pat templ u rest before : jsstring) :
  replace_all_from pat templ before (List.length u) (u ++ rest)
  = replace_all_from pat templ (before ++ u) 0 rest.
Proof.
  revert before. induction u as [| c u IH]; intros before.
  - now rewrite app_nil_r.
  - simpl. rewrite IH, <- app_assoc. reflexivity.
Qed.

Lemma replace_all_from_match (pat templ before rest : jsstring) :
  pat <> [] ->
  replace_all_from pat templ before 0 (pat ++ rest)
  = getSubstitution pat before rest templ
    ++ replace_all_from pat templ (before ++ pat) 0 rest.
Proof.
  intros Hp. destruct pat as [| p0 ps]; [contradiction |].
  change ((p0 :: ps) ++ rest) with (p0 :: (ps ++ rest)).
  cbn [replace_all_from].
  change (p0 :: (ps ++ rest)) with ((p0 :: ps) ++ rest).
  rewrite starts_with_self.
  replace (skipn (List.length (p0 :: ps)) ((p0 :: ps) ++ rest)) with rest.
  2:{ rewrite skipn_app, skipn_all, Nat.sub_diag. reflexivity. }
  f_equal.
  replace (List.length (p0 :: ps) - 1)%nat with (List.length ps)
    by (simpl; lia).
  rewrite replace_all_from_skip, <- app_assoc. reflexivity.
Qed.

Lemma occurs_length (q s : jsstring) :
  occurs q s -> (List.length q <= List.length s)%nat.
Proof.
  intros (a & b & ->). rewrite !length_app. lia.
Qed.

Lemma removelast_free (pat : jsstring) :
  pat <> [] -> ~ occurs pat ([] ++ removelast pat).
Proof.
  intros Hp H. apply occurs_length in H. simpl in H.
  rewrite (app_removelast_last HYPHEN Hp) in H at 1.
  rewrite length_app in H. simpl in H. lia.
Qed.

Lemma leftmost_split_free (pat : jsstring) (ls : list jsstring) :
  forall l0, leftmost_split pat l0 ls ->
             Forall (fun l => ~ occurs pat l) (l0 :: ls).
Proof.
  induction ls as [| l1 ls IH]; intros l0 H.
  - constructor; [exact H | constructor].
  - destruct H as [H0 H1]. constructor; [| now apply IH].
    intros H. apply H0. now apply occurs_app_l.
Qed.

Lemma occursb_occurs (t s : jsstring) : occursb t s = true -> occurs t s.
Proof.
  induction s as [| c s IH]; simpl.
  - destruct t; [| discriminate]. intros _. now exists [], [].
  - intros H. apply orb_true_iff in H as [H | H].
    + exists [], (strip_prefix t (c :: s)). simpl.
      now apply strip_prefix_split.
    + apply (@occurs_app_r t [c] s). now apply IH.
Qed.

Section ReplaceAll.

Variables pat templ : jsstring.

Lemma replace_all_from_step (before : jsstring) (c : code_unit) (t : jsstring) :
  starts_with pat (c :: t) = false ->
  replace_all_from pat templ before 0 (c :: t)
  = c :: replace_all_from pat templ (before ++ [c]) 0 t.
Proof. intros H. cbn [replace_all_from]. now rewrite H. Qed.

Hypothesis pat_nonempty : pat <> [].
Hypothesis templ_plain : has_dollar templ = false.

(** The subject splits at occurrences of the pattern into pieces free of
    it, and the result is these pieces with the replacement between
    them. *)
Lemma replace_all_from_join (n : nat) :
  forall s before, (List.length s <= n)%nat ->
  exists l0 ls,
    s = join pat l0 ls
    /\ leftmost_split pat l0 ls
    /\ replace_all_from pat templ before 0 s = join templ l0 ls.
Proof.
  induction n as [| n IH]; intros s before Hn.
  - destruct s; [| simpl in Hn; lia].
    exists [], []. repeat split.
    intros H. now apply occurs_nil in H.
  - destruct s as [| c t].
    + exists [], []. repeat split.
      intros H. now apply occurs_nil in H.
    + destruct (starts_with pat (c :: t)) eqn:Es.
      * pose proof (@strip_prefix_split pat (c :: t) Es) as Esplit.
        set (rest := strip_prefix pat (c :: t)) in *.
        assert (Hlen : (List.length rest <= n)%nat).
        { apply (f_equal (@List.length _)) in Esplit.
          rewrite length_app in Esplit. simpl in Esplit, Hn.
          destruct pat; [contradiction | simpl in Esplit; lia]. }
        destruct (IH rest (before ++ pat) Hlen) as (l0 & ls & E & Hf & Hr).
        exists [], (l0 :: ls). repeat split.
        -- simpl. now rewrite <- E.
        -- apply removelast_free. exact pat_nonempty.
        -- exact Hf.
        -- rewrite Esplit, replace_all_from_match by assumption.
           rewrite getSubstitution_plain by assumption.
           simpl. now rewrite Hr.
      * assert (Hlen : (List.length t <= n)%nat) by (simpl in Hn; lia).
        destruct (IH t (before ++ [c]) Hlen) as (l0 & ls & E & Hf & Hr).
        exists (c :: l0), ls. repeat split.
        -- rewrite join_cons. now f_equal.
        -- destruct ls as [| l1 ls].
           ++ simpl in *. subst t. intros H.
              apply occurs_cons in H as [H | H]; [congruence | now apply Hf].
           ++ destruct Hf as [H0 Hrest]. split; [| exact Hrest].
              intros H. apply occurs_cons in H as [H | H]; [| now apply H0].
              rewrite E in Es. simpl in Es.
              rewrite (app_removelast_last HYPHEN pat_nonempty) in Es at 2.
              rewrite <- !app_assoc in Es.
              rewrite (app_assoc l0) in Es.
              change (c :: (l0 ++ removelast pat) ++ [last pat HYPHEN]
                        ++ join pat l1 ls)
                with ((c :: l0 ++ removelast pat)
                        ++ [last pat HYPHEN] ++ join pat l1 ls) in Es.
              rewrite (@starts_with_app pat (c :: l0 ++ removelast pat) _ H)
                in Es.
              discriminate.
        -- rewrite replace_all_from_step by assumption.
           rewrite join_cons. now f_equal.
Qed.

Lemma replace_all_join (s : jsstring) :
  exists l0 ls,
    s = join pat l0 ls
    /\ leftmost_split pat l0 ls
    /\ replace_all pat templ s = join templ l0 ls.
Proof. apply (replace_all_from_join (n := List.length s)). lia. Qed.

End ReplaceAll.

(** *** Replacement texts whose dollars stand for themselves *)

Lemma getSubstitution_literal (matched before after templ : jsstring) :
  dollar_literal templ = true ->
  getSubstitution matched before after templ = templ.
Proof.
  induction templ as [| c t IH]; intros H; [reflexivity |].
  cbn [getSubstitution]. cbn [dollar_literal] in H.
  destruct (c =? DOLLAR) eqn:Ec.
  - destruct t as [| d t']; [reflexivity |].
    apply andb_true_iff in H as [Hd Ht].
    apply negb_true_iff in Hd.
    apply orb_false_iff in Hd as [Hd H39].
    apply orb_false_iff in Hd as [Hd H96].
    apply orb_false_iff in Hd as [H36 H38].
    rewrite H36, H38, H96, H39. f_equal. now apply IH.
  - f_equal. now apply IH.
Qed.

Lemma has_dollar_literal (templ : jsstring) :
  has_dollar templ = false -> dollar_literal templ = true.
Proof.
  unfold has_dollar. induction templ as [| c t IH]; intros H; [reflexivity |].
  change (existsb (N.eqb DOLLAR) (c :: t))
    with ((DOLLAR =? c) || existsb (N.eqb DOLLAR) t) in H.
  apply orb_false_iff in H as [Hc Ht].
  cbn [dollar_literal]. rewrite N.eqb_sym, Hc. now apply IH.
Qed.

Lemma replace_all_from_absent (pat templ : jsstring) (s : jsstring) :
  ~ occurs pat s ->
  forall before, replace_all_from pat templ before 0 s = s.
Proof.
  induction s as [| c t IH]; intros H before; [reflexivity |].
  assert (Es : starts_with pat (c :: t) = false).
  { destruct (starts_with pat (c :: t)) eqn:E; [| reflexivity].
    exfalso. apply H. exists [], (strip_prefix pat (c :: t)).
    simpl. now apply strip_prefix_split. }
  rewrite (@replace_all_from_step pat templ before c t Es). f_equal.
  apply IH. intros Ho. apply H. now apply (@occurs_app_r pat [c] t).
Qed.

(** A literal replacement text gives the split-and-join result. *)
Lemma replace_all_from_join_literal (pat templ : jsstring) (n : nat) :
  pat <> [] ->
  dollar_literal templ = true ->
  forall s before, (List.length s <= n)%nat ->
  exists l0 ls,
    s = join pat l0 ls
    /\ leftmost_split pat l0 ls
    /\ replace_all_from pat templ before 0 s = join templ l0 ls.
Proof.
  intros Hp Hl. induction n as [| n IH]; intros s before Hn.
  - destruct s; [| simpl in Hn; lia].
    exists [], []. repeat split.
    intros H. now apply occurs_nil in H.
  - destruct s as [| c t].
    + exists [], []. repeat split.
      intros H. now apply occurs_nil in H.
    + destruct (starts_with pat (c :: t)) eqn:Es.
      * pose proof (@strip_prefix_split pat (c :: t) Es) as Esplit.
        set (rest := strip_prefix pat (c :: t)) in *.
        assert (Hlen : (List.length rest <= n)%nat).
        { apply (f_equal (@List.length _)) in Esplit.
          rewrite length_app in Esplit. simpl in Esplit, Hn.
          destruct pat; [contradiction | simpl in Esplit; lia]. }
        destruct (IH rest (before ++ pat) Hlen) as (l0 & ls & E & Hf & Hr).
        exists [], (l0 :: ls). repeat split.
        -- simpl. now rewrite <- E.
        -- now apply removelast_free.
        -- exact Hf.
        -- rewrite Esplit, replace_all_from_match by assumption.
           rewrite getSubstitution_literal by assumption.
           simpl. now rewrite Hr.
      * assert (Hlen : (List.length t <= n)%nat) by (simpl in Hn; lia).
        destruct (IH t (before ++ [c]) Hlen) as (l0 & ls & E & Hf & Hr).
        exists (c :: l0), ls. repeat split.
        -- rewrite join_cons. now f_equal.
        -- destruct ls as [| l1 ls].
           ++ simpl in *. subst t. intros H.
              apply occurs_cons in H as [H | H]; [congruence | now apply Hf].
           ++ destruct Hf as [H0 Hrest]. split; [| exact Hrest].
              intros H. apply occurs_cons in H as [H | H]; [| now apply H0].
              rewrite E in Es. simpl in Es.
              rewrite (app_removelast_last HYPHEN Hp) in Es at 2.
              rewrite <- !app_assoc in Es.
              rewrite (app_assoc l0) in Es.
              change (c :: (l0 ++ removelast pat) ++ [last pat HYPHEN]
                        ++ join pat l1 ls)
                with ((c :: l0 ++ removelast pat)
                        ++ [last pat HYPHEN] ++ join pat l1 ls) in Es.
              rewrite (@starts_with_app pat (c :: l0 ++ removelast pat) _ H)
                in Es.
              discriminate.
        -- rewrite (@replace_all_from_step pat templ before c t Es).
           rewrite join_cons. now f_equal.
Qed.

(** *** Texts that a token cannot overlap *)

Lemma app_agree (q y r b : jsstring) :
  q ++ y = r ++ b -> agreeb q r = true.
Proof.
  intros E. unfold agreeb.
  apply app_eq_app in E as [l [[-> _] | [-> _]]].
  - rewrite (starts_with_self r l). apply orb_true_r.
  - now rewrite (starts_with_self q l).
Qed.

Lemma agreeb_sym (a b : jsstring) : agreeb a b = agreeb b a.
Proof. unfold agreeb. apply orb_comm. Qed.

Lemma in_tails (u x : jsstring) : x <> [] -> In x (tails (u ++ x)).
Proof.
  intros Hx. induction u as [| c u IH].
  - destruct x as [| c t]; [contradiction | now left].
  - simpl. now right.
Qed.

Lemma existsb_none {A} (f : A -> bool) (l : list A) (x : A) :
  existsb f l = false -> In x l -> f x = false.
Proof.
  intros H Hin. destruct (f x) eqn:E; [| reflexivity].
  assert (existsb f l = true) by (apply existsb_exists; now exists x).
  congruence.
Qed.

Lemma overlaps_suffix (r q u x : jsstring) :
  overlaps r q = false -> q = u ++ x -> x <> [] -> agreeb x r = false.
Proof.
  unfold overlaps. intros H -> Hx. apply orb_false_iff in H as [H _].
  apply (@existsb_none _ (fun x => agreeb x r) (tails (u ++ x)) x H).
  now apply in_tails.
Qed.

Lemma overlaps_inner (r q u y : jsstring) :
  overlaps r q = false -> r = u ++ y -> u <> [] -> y <> [] ->
  agreeb y q = false.
Proof.
  unfold overlaps. intros H -> Hu Hy. apply orb_false_iff in H as [_ H].
  destruct u as [| c u]; [contradiction |]. simpl in H.
  apply (@existsb_none _ (fun y => agreeb y q) (tails (u ++ y)) y H).
  now apply in_tails.
Qed.

(** An occurrence of [q] in a text around a copy of [r] that [q] cannot
    overlap lies before the copy or after it. *)
Lemma occurs_apart (q r a b : jsstring) :
  r <> [] -> overlaps r q = false ->
  occurs q (a ++ r ++ b) -> occurs q a \/ occurs q b.
Proof.
  intros Hr Ho (x & y & E).
  destruct q as [| q0 q']; [left; now exists [], a |].
  set (q := q0 :: q') in *.
  assert (Hq : q <> []) by discriminate.
  apply app_eq_app in E as [l [[Ha Hl] | [Hx Hl]]].
  - apply app_eq_app in Hl as [l2 [[Hq2 Hy] | [Hl2 Hy]]].
    + destruct l2 as [| c l2].
      * left. rewrite app_nil_r in Hq2. subst l a. exists x, [].
        now rewrite app_nil_r.
      * exfalso.
        assert (Hag : agreeb (c :: l2) r = true)
          by (apply (@app_agree (c :: l2) y r b); now symmetry).
        rewrite (@overlaps_suffix r q l (c :: l2) Ho Hq2) in Hag;
          discriminate.
    + left. subst a l. exists x, l2. reflexivity.
  - apply app_eq_app in Hl as [l2 [[Hr2 Hy] | [Hl2 Hb]]].
    + destruct l2 as [| c l2].
      * right. simpl in Hy. exists [], y. simpl. now symmetry.
      * exfalso.
        assert (Hag : agreeb q (c :: l2) = true)
          by (apply (@app_agree q y (c :: l2) b); exact Hy).
        destruct l as [| d l].
        -- simpl in Hr2. subst r.
           rewrite (@overlaps_suffix (c :: l2) q [] q Ho eq_refl Hq) in Hag.
           discriminate.
        -- rewrite agreeb_sym in Hag.
           rewrite (@overlaps_inner r q (d :: l) (c :: l2) Ho Hr2) in Hag;
             discriminate.
    + right. subst b. now exists l2, y.
Qed.

Lemma occurs_join_apart (q r : jsstring) (ls : list jsstring) :
  r <> [] -> overlaps r q = false ->
  forall l0, occurs q (join r l0 ls) -> Exists (occurs q) (l0 :: ls).
Proof.
  intros Hr Ho. induction ls as [| l1 ls IH]; intros l0 H.
  - now constructor.
  - simpl in H. apply (@occurs_apart q r l0 (join r l1 ls) Hr Ho) in H.
    destruct H as [H | H]; [now constructor | constructor 2; now apply IH].
Qed.

Lemma slug_no_dollar (s : jsstring) :
  forallb slug_char s = true -> has_dollar s = false.
Proof.
  unfold has_dollar. induction s as [| c t IH]; intros H; [reflexivity |].
  change (forallb slug_char (c :: t)) with (slug_char c && forallb slug_char t) in H.
  apply andb_true_iff in H as [Hc Ht].
  change (existsb (N.eqb DOLLAR) (c :: t))
    with ((DOLLAR =? c) || existsb (N.eqb DOLLAR) t).
  rewrite (IH Ht), orb_false_r.
  apply slug_char_iff in Hc. apply N.eqb_neq. unfold DOLLAR. lia.
Qed.

Lemma name_token_nonempty (v : variant) : name_token_of v <> [].
Proof. destruct v; discriminate. Qed.

Lemma slug_token_nonempty : SLUG_TOKEN <> [].
Proof. discriminate. Qed.

(** The two passes, each as a split into pieces and a join. *)
Lemma rewrite_manifest_join (token projectName slug pkg : jsstring) :
  token <> [] ->
  has_dollar projectName = false ->
  has_dollar slug = false ->
  exists l0 ls m0 ms,
    pkg = join token l0 ls
    /\ leftmost_split token l0 ls
    /\ replace_all token projectName pkg = join projectName l0 ls
    /\ join projectName l0 ls = join SLUG_TOKEN m0 ms
    /\ leftmost_split SLUG_TOKEN m0 ms
    /\ rewrite_manifest token projectName slug pkg = join slug m0 ms.
Proof.
  intros Ht Hn Hs.
  destruct (@replace_all_join token projectName Ht Hn pkg)
    as (l0 & ls & E1 & F1 & R1).
  destruct (@replace_all_join SLUG_TOKEN slug slug_token_nonempty Hs
              (join projectName l0 ls))
    as (m0 & ms & E2 & F2 & R2).
  exists l0, ls, m0, ms. unfold rewrite_manifest.
  rewrite R1. repeat split; assumption.
Qed.

Lemma rewrite_manifest_clean (token projectName slug pkg : jsstring) :
  token <> [] ->
  has_dollar projectName = false ->
  has_dollar slug = false ->
  projectName <> [] ->
  slug <> [] ->
  disjoint_chars projectName (token ++ SLUG_TOKEN) = true ->
  disjoint_chars slug (token ++ SLUG_TOKEN) = true ->
  ~ occurs token (rewrite_manifest token projectName slug pkg)
  /\ ~ occurs SLUG_TOKEN (rewrite_manifest token projectName slug pkg).
Proof.
  intros Ht Hn Hs Hne Hse Hdn Hds.
  apply disjoint_chars_app in Hdn as [Hnt Hns].
  apply disjoint_chars_app in Hds as [Hst Hss].
  destruct (@rewrite_manifest_join token projectName slug pkg Ht Hn Hs)
    as (l0 & ls & m0 & ms & E1 & F1 & R1 & E2 & F2 & R2).
  rewrite R2. split; intros H.
  - apply occurs_join_piece in H;
      [| exact Hse | now apply disjoint_chars_spec].
    apply (@occurs_in_join token SLUG_TOKEN) in H. rewrite <- E2 in H.
    apply occurs_join_piece in H;
      [| exact Hne | now apply disjoint_chars_spec].
    apply leftmost_split_free in F1. now apply Forall_Exists_neg in F1.
  - apply occurs_join_piece in H;
      [| exact Hse | now apply disjoint_chars_spec].
    apply leftmost_split_free in F2. now apply Forall_Exists_neg in F2.
Qed.

Lemma rewritePackage_present (toLowerCase : jsstring -> jsstring) (w : world)
    (token name pkg : jsstring) :
  fs_pathExists w (pkgPath w name) = true ->
  fs_readFile w (pkgPath w name) = Ok pkg ->
  trace (rewritePackage toLowerCase w token name)
  = [PathExists (pkgPath w name); ReadFile (pkgPath w name);
     WriteFile (pkgPath w name)
       (rewrite_manifest token name (slugify toLowerCase name) pkg)].
Proof.
  intros He Hr. unfold rewritePackage, query, call, bind.
  rewrite He, Hr. reflexivity.
Qed.

Lemma replace_all_join_literal (pat templ s : jsstring) :
  pat <> [] ->
  dollar_literal templ = true ->
  exists l0 ls,
    s = join pat l0 ls
    /\ leftmost_split pat l0 ls
    /\ replace_all pat templ s = join templ l0 ls.
Proof.
  intros Hp Hl.
  apply (@replace_all_from_join_literal pat templ (List.length s) Hp Hl).
  lia.
Qed.

(** The two passes for a replacement text whose dollars stand for
    themselves. *)
Lemma rewrite_manifest_join_literal (token projectName slug pkg : jsstring) :
  token <> [] ->
  dollar_literal projectName = true ->
  dollar_literal slug = true ->
  exists l0 ls m0 ms,
    pkg = join token l0 ls
    /\ leftmost_split token l0 ls
    /\ replace_all token projectName pkg = join projectName l0 ls
    /\ join projectName l0 ls = join SLUG_TOKEN m0 ms
    /\ leftmost_split SLUG_TOKEN m0 ms
    /\ rewrite_manifest token projectName slug pkg = join slug m0 ms.
Proof.
  intros Ht Hn Hs.
  destruct (@replace_all_join_literal token projectName pkg Ht Hn)
    as (l0 & ls & E1 & F1 & R1).
  destruct (@replace_all_join_literal SLUG_TOKEN slug
              (join projectName l0 ls) slug_token_nonempty Hs)
    as (m0 & ms & E2 & F2 & R2).
  exists l0, ls, m0, ms. unfold rewrite_manifest.
  rewrite R1. repeat split; assumption.
Qed.

(** No token is left when the name token cannot overlap the project name
    and neither token can overlap the slug. *)
Lemma rewrite_manifest_clear (token projectName slug pkg : jsstring) :
  token <> [] ->
  dollar_literal projectName = true ->
  dollar_literal slug = true ->
  projectName <> [] ->
  slug <> [] ->
  overlaps projectName token = false ->
  overlaps slug token = false ->
  overlaps slug SLUG_TOKEN = false ->
  ~ occurs token (rewrite_manifest token projectName slug pkg)
  /\ ~ occurs SLUG_TOKEN (rewrite_manifest token projectName slug pkg).
Proof.
  intros Ht Hn Hs Hne Hse Hnt Hst Hss.
  destruct (@rewrite_manifest_join_literal token projectName slug pkg Ht Hn Hs)
    as (l0 & ls & m0 & ms & E1 & F1 & R1 & E2 & F2 & R2).
  rewrite R2. split; intros H.
  - apply (@occurs_join_apart token slug ms Hse Hst) in H.
    apply (@occurs_in_join token SLUG_TOKEN) in H. rewrite <- E2 in H.
    apply (@occurs_join_apart token projectName ls Hne Hnt) in H.
    apply leftmost_split_free in F1. now apply Forall_Exists_neg in F1.
  - apply (@occurs_join_apart SLUG_TOKEN slug ms Hse Hss) in H.
    apply leftmost_split_free in F2. now apply Forall_Exists_neg in F2.
Qed.

(** The replacement text is a pattern, not a literal: [$&] brings the
    token back, [$$] is one dollar. *)
Lemma dollar_patterns_expand :
  replace_all Alt.NAME_TOKEN (js "a$&b") (js "name: __PROJECT_NAME__")
  = js "name: a__PROJECT_NAME__b"
  /\ replace_all Alt.NAME_TOKEN (js "cash$$") (js "name: __PROJECT_NAME__")
     = js "name: cash$".
Proof. split; reflexivity. Qed.

(** C5, as worded, fails.  In [src/bin/index.js] the token is the name of
    the template, and a project name that holds it brings it back; so
    does a project name that holds the token in the second variant; and
    a slug token that overlaps a name token is not replaced by the
    slug. *)
Lemma manifest_rewrite_counterexample :
  occurs Bin.NAME_TOKEN
    (rewrite_manifest Bin.NAME_TOKEN (js "convexity-n-layer-template-api")
       (slugify ascii_toLowerCase (js "convexity-n-layer-template-api"))
       (js "name: convexity-n-layer-template, slug: __PROJECT_SLUG__"))
  /\ occurs Alt.NAME_TOKEN
       (rewrite_manifest Alt.NAME_TOKEN (js "__PROJECT_NAME__")
          (slugify ascii_toLowerCase (js "__PROJECT_NAME__"))
          (js "name: __PROJECT_NAME__"))
  /\ occurs SLUG_TOKEN (js "__PROJECT_SLUG__PROJECT_NAME__")
  /\ rewrite_manifest Alt.NAME_TOKEN (js "app")
       (slugify ascii_toLowerCase (js "app"))
       (js "__PROJECT_SLUG__PROJECT_NAME__")
     = js "__PROJECT_SLUGapp".
Proof.
  repeat split; try (apply occursb_occurs; reflexivity).
Qed.

(** C5, amended.  For a project name in which no dollar is followed by
    [$], [&], a backquote or a quote, the manifest splits at the
    occurrences of the name token that a scan from the left finds, the
    first pass gives the pieces joined by the project name, that text
    splits in the same way at the slug token, and the rewritten manifest
    is these pieces joined by the slug: the name tokens found from left to
    right are replaced by the project name and then the slug tokens of
    the result by the slug.  When moreover the project name and the slug
    are not empty, the name token cannot overlap the project name and
    neither token can overlap the slug, neither token occurs in the
    rewritten manifest.  The text written to [package.json] is this
    rewritten manifest. *)
Theorem manifest_rewrite_amended (v : variant)
    (toLowerCase : jsstring -> jsstring) (projectName pkg : jsstring) :
  dollar_literal projectName = true ->
  (exists l0 ls m0 ms,
      pkg = join (name_token_of v) l0 ls
      /\ leftmost_split (name_token_of v) l0 ls
      /\ replace_all (name_token_of v) projectName pkg
         = join projectName l0 ls
      /\ join projectName l0 ls = join SLUG_TOKEN m0 ms
      /\ leftmost_split SLUG_TOKEN m0 ms
      /\ rewrite_manifest (name_token_of v) projectName
           (slugify toLowerCase projectName) pkg
         = join (slugify toLowerCase projectName) m0 ms)
  /\ (projectName <> [] ->
      slugify toLowerCase projectName <> [] ->
      overlaps projectName (name_token_of v) = false ->
      overlaps (slugify toLowerCase projectName) (name_token_of v) = false ->
      overlaps (slugify toLowerCase projectName) SLUG_TOKEN = false ->
      ~ occurs (name_token_of v)
          (rewrite_manifest (name_token_of v) projectName
             (slugify toLowerCase projectName) pkg)
      /\ ~ occurs SLUG_TOKEN
             (rewrite_manifest (name_token_of v) projectName
                (slugify toLowerCase projectName) pkg))
  /\ (forall w : world,
        fs_pathExists w (pkgPath w projectName) = true ->
        fs_readFile w (pkgPath w projectName) = Ok pkg ->
        trace (rewritePackage toLowerCase w (name_token_of v) projectName)
        = [PathExists (pkgPath w projectName);
           ReadFile (pkgPath w projectName);
           WriteFile (pkgPath w projectName)
             (rewrite_manifest (name_token_of v) projectName
                (slugify toLowerCase projectName) pkg)]).
Proof.
  intros Hn.
  assert (Hs : dollar_literal (slugify toLowerCase projectName) = true)
    by (apply has_dollar_literal, slug_no_dollar; apply slugify_shape).
  pose proof (name_token_nonempty v) as Ht.
  split; [| split].
  - now apply rewrite_manifest_join_literal.
  - intros Hne Hse Hnt Hst Hss. now apply rewrite_manifest_clear.
  - intros w He Hr. now apply rewritePackage_present.
Qed.

Lemma manifest_rewrite_amended_witness :
  (~ occurs Bin.NAME_TOKEN
       (rewrite_manifest Bin.NAME_TOKEN (js "my-convexity-app")
          (slugify ascii_toLowerCase (js "my-convexity-app"))
          (js "{ name: convexity-n-layer-template, bin: __PROJECT_SLUG__ }"))
   /\ ~ occurs SLUG_TOKEN
         (rewrite_manifest Bin.NAME_TOKEN (js "my-convexity-app")
            (slugify ascii_toLowerCase (js "my-convexity-app"))
            (js "{ name: convexity-n-layer-template, bin: __PROJECT_SLUG__ }")))
  /\ (~ occurs Alt.NAME_TOKEN
         (rewrite_manifest Alt.NAME_TOKEN (js "Cash$ App")
            (slugify ascii_toLowerCase (js "Cash$ App"))
            (js "{ name: __PROJECT_SLUG__, description: __PROJECT_NAME__ }"))
      /\ ~ occurs SLUG_TOKEN
            (rewrite_manifest Alt.NAME_TOKEN (js "Cash$ App")
               (slugify ascii_toLowerCase (js "Cash$ App"))
               (js "{ name: __PROJECT_SLUG__, description: __PROJECT_NAME__ }")))
  /\ rewrite_manifest Alt.NAME_TOKEN (js "Cash$ App")
       (slugify ascii_toLowerCase (js "Cash$ App"))
       (js "{ name: __PROJECT_SLUG__, description: __PROJECT_NAME__ }")
     = js "{ name: cash-app, description: Cash$ App }".
Proof.
  assert (Hb : js "my-convexity-app" <> []) by discriminate.
  assert (Hbs : slugify ascii_toLowerCase (js "my-convexity-app") <> [])
    by discriminate.
  assert (Ha : js "Cash$ App" <> []) by discriminate.
  assert (Has : slugify ascii_toLowerCase (js "Cash$ App") <> [])
    by discriminate.
  split; [| split; [| reflexivity]].
  - exact (proj1 (proj2
      (@manifest_rewrite_amended BinIndex ascii_toLowerCase
         (js "my-convexity-app")
         (js "{ name: convexity-n-layer-template, bin: __PROJECT_SLUG__ }")
         eq_refl))
      Hb Hbs eq_refl eq_refl eq_refl).
  - exact (proj1 (proj2
      (@manifest_rewrite_amended SecondScript ascii_toLowerCase
         (js "Cash$ App")
         (js "{ name: __PROJECT_SLUG__, description: __PROJECT_NAME__ }")
         eq_refl))
      Ha Has eq_refl eq_refl eq_refl).
Defined.

(** * Further properties *)

(** ** [trim] and the padding of a name *)

Lemma drop_while_idem (p : code_unit -> bool) (s : jsstring) :
  drop_while p (drop_while p s) = drop_while p s.
Proof.
  induction s as [| c t IH]; [reflexivity |].
  simpl. destruct (p c) eqn:E; [exact IH |]. simpl. now rewrite E.
Qed.

Lemma drop_while_head (p : code_unit -> bool) (s : jsstring)
    (c : code_unit) (t : jsstring) :
  drop_while p s = c :: t -> p c = false.
Proof.
  induction s as [| a s IH]; [discriminate |].
  simpl. destruct (p a) eqn:E; [exact IH |].
  intros H. injection H as -> _. exact E.
Qed.

Lemma drop_while_snoc (p : code_unit -> bool) (l : jsstring) (c : code_unit) :
  p c = false -> drop_while p (l ++ [c]) = drop_while p l ++ [c].
Proof.
  intros Hc. induction l as [| a l IH]; simpl; [now rewrite Hc |].
  destruct (p a); [exact IH | reflexivity].
Qed.

Lemma drop_while_all (p : code_unit -> bool) (l x : jsstring) :
  forallb p l = true -> drop_while p (l ++ x) = drop_while p x.
Proof.
  induction l as [| a l IH]; [reflexivity |].
  simpl. intros H. apply andb_true_iff in H as [Ha Hl].
  rewrite Ha. now apply IH.
Qed.

Lemma drop_while_app (p : code_unit -> bool) (s r : jsstring) :
  drop_while p (s ++ r)
  = match drop_while p s with
    | [] => drop_while p r
    | c :: t => (c :: t) ++ r
    end.
Proof.
  induction s as [| a s IH]; simpl.
  - now destruct (drop_while p r).
  - destruct (p a); [exact IH | reflexivity].
Qed.

Lemma trimEnd_cons (c : code_unit) (t : jsstring) :
  is_white_space c = false -> trimEnd (c :: t) = c :: trimEnd t.
Proof.
  intros Hc. unfold trimEnd. simpl rev.
  rewrite (@drop_while_snoc is_white_space (rev t) c Hc).
  now rewrite rev_app_distr.
Qed.

Lemma trimEnd_idem (s : jsstring) : trimEnd (trimEnd s) = trimEnd s.
Proof.
  unfold trimEnd. now rewrite rev_involutive, drop_while_idem.
Qed.

Lemma trimEnd_padding (x r : jsstring) :
  forallb is_white_space r = true -> trimEnd (x ++ r) = trimEnd x.
Proof.
  intros Hr. unfold trimEnd. rewrite rev_app_distr.
  rewrite drop_while_all; [reflexivity |].
  apply forallb_forall. intros c Hc. apply in_rev in Hc.
  rewrite forallb_forall in Hr. now apply Hr.
Qed.

Lemma trimStart_trim (s : jsstring) : trimStart (trim s) = trim s.
Proof.
  unfold trim. destruct (trimStart s) as [| c t] eqn:E; [reflexivity |].
  pose proof (@drop_while_head is_white_space s c t E) as Hc.
  rewrite (@trimEnd_cons c t Hc). unfold trimStart. simpl. now rewrite Hc.
Qed.

Lemma trim_idem (s : jsstring) : trim (trim s) = trim s.
Proof.
  unfold trim at 1. rewrite trimStart_trim. unfold trim.
  apply trimEnd_idem.
Qed.

Lemma trim_padding (l s r : jsstring) :
  forallb is_white_space l = true ->
  forallb is_white_space r = true ->
  trim (l ++ s ++ r) = trim s.
Proof.
  intros Hl Hr. unfold trim, trimStart.
  rewrite (@drop_while_all is_white_space l (s ++ r) Hl), drop_while_app.
  destruct (drop_while is_white_space s) as [| c t] eqn:E.
  - rewrite <- (app_nil_r r), (@drop_while_all is_white_space r [] Hr). reflexivity.
  - now apply trimEnd_padding.
Qed.

(** X1.  White space around a name does not reach the slug: a name padded
    with white space on either side has the slug of the bare name, and
    trimming a name first changes neither [trim] nor the slug. *)
Theorem slugify_ignores_padding (toLowerCase : jsstring -> jsstring)
    (l s r : jsstring) :
  forallb is_white_space l = true ->
  forallb is_white_space r = true ->
  trim (l ++ s ++ r) = trim s
  /\ slugify toLowerCase (l ++ s ++ r) = slugify toLowerCase s
  /\ trim (trim s) = trim s
  /\ slugify toLowerCase (trim s) = slugify toLowerCase s.
Proof.
  intros Hl Hr. pose proof (@trim_padding l s r Hl Hr) as Hp.
  repeat split.
  - exact Hp.
  - unfold slugify. now rewrite Hp.
  - apply trim_idem.
  - unfold slugify. now rewrite trim_idem.
Qed.

Lemma slugify_ignores_padding_witness :
  slugify ascii_toLowerCase (js "  " ++ js "My App" ++ [9; 10])
  = slugify ascii_toLowerCase (js "My App").
Proof.
  exact (proj1 (proj2
    (@slugify_ignores_padding ascii_toLowerCase (js "  ") (js "My App")
       [9; 10] eq_refl eq_refl))).
Defined.

(** ** What the slug keeps *)

Lemma keep_char_hyphen : keep_char HYPHEN = false.
Proof. reflexivity. Qed.

Lemma keep_char_not_space (c : code_unit) :
  is_white_space c = true -> keep_char c = false.
Proof.
  intros H. unfold keep_char.
  destruct (slug_char c) eqn:E; [| reflexivity].
  apply slug_char_not_space in E. congruence.
Qed.

Lemma filter_keep_replace_runs (p : code_unit -> bool) (s : jsstring) :
  (forall c, p c = true -> keep_char c = false) ->
  forall b,
    filter keep_char (replace_runs_from p [HYPHEN] b s) = filter keep_char s.
Proof.
  intros Hp. induction s as [| c t IH]; intros b; [reflexivity |].
  simpl. destruct (p c) eqn:E.
  - rewrite (Hp c E). destruct b; simpl; rewrite ?keep_char_hyphen; apply IH.
  - simpl. now rewrite IH.
Qed.

Lemma filter_keep_replace_each (s : jsstring) :
  filter keep_char (replace_each (fun c => negb (slug_char c)) [HYPHEN] s)
  = filter keep_char s.
Proof.
  unfold replace_each. induction s as [| c t IH]; [reflexivity |].
  simpl. rewrite filter_app, IH.
  destruct (slug_char c) eqn:E; simpl.
  - now destruct (keep_char c).
  - unfold keep_char at 2. now rewrite E.
Qed.

Lemma filter_keep_drop_final (s : jsstring) :
  filter keep_char (drop_final_hyphen s) = filter keep_char s.
Proof.
  induction s as [| c t IH]; [reflexivity |].
  destruct t as [| d t'].
  - simpl. destruct (is_hyphen c) eqn:E; [| reflexivity].
    unfold keep_char. now rewrite E, andb_false_r.
  - rewrite drop_final_hyphen_cons.
    change (filter keep_char (c :: drop_final_hyphen (d :: t')))
      with (if keep_char c then c :: filter keep_char (drop_final_hyphen (d :: t'))
            else filter keep_char (drop_final_hyphen (d :: t'))).
    rewrite IH. reflexivity.
Qed.

Lemma filter_keep_strip_edge (s : jsstring) :
  filter keep_char (strip_edge_hyphens s) = filter keep_char s.
Proof.
  destruct s as [| c t]; [reflexivity |].
  unfold strip_edge_hyphens. destruct (is_hyphen c) eqn:E.
  - rewrite filter_keep_drop_final. simpl.
    unfold keep_char at 2. now rewrite E, andb_false_r.
  - apply filter_keep_drop_final.
Qed.

Lemma slugify_filter_keep (toLowerCase : jsstring -> jsstring)
    (name : jsstring) :
  filter keep_char (slugify toLowerCase name)
  = filter keep_char (toLowerCase (trim name)).
Proof.
  unfold slugify, replace_runs.
  rewrite filter_keep_strip_edge.
  rewrite filter_keep_replace_runs
    by (intros c Hc; unfold keep_char; now rewrite Hc, andb_false_r).
  rewrite filter_keep_replace_each.
  apply filter_keep_replace_runs. apply keep_char_not_space.
Qed.

(** X2.  [slugify] neither drops, nor reorders, nor alters a code unit of
    [a-z0-9_.] of the lowercased, trimmed name: these are the same in the
    slug, in the same order; everything else in the slug is a hyphen. *)
Theorem slugify_keeps_allowed (toLowerCase : jsstring -> jsstring)
    (name : jsstring) :
  filter keep_char (slugify toLowerCase name)
  = filter keep_char (toLowerCase (trim name))
  /\ forallb is_hyphen
       (filter (fun c => negb (keep_char c)) (slugify toLowerCase name))
     = true.
Proof.
  split; [apply slugify_filter_keep |].
  destruct (slugify_shape toLowerCase name) as [Hc _].
  rewrite forallb_forall in Hc. apply forallb_forall.
  intros c Hin. apply filter_In in Hin as [Hin Hk].
  specialize (Hc c Hin). unfold keep_char in Hk. rewrite Hc in Hk.
  simpl in Hk. now apply negb_true_iff, negb_false_iff in Hk.
Qed.

(** X3.  The slug is empty exactly when the lowercased, trimmed name has
    no code unit of [a-z0-9_.]; a name of punctuation only, for one, has
    the empty slug. *)
Theorem slugify_empty_iff (toLowerCase : jsstring -> jsstring)
    (name : jsstring) :
  slugify toLowerCase name = []
  <-> filter keep_char (toLowerCase (trim name)) = [].
Proof.
  rewrite <- (slugify_filter_keep toLowerCase name).
  destruct (slugify_shape toLowerCase name) as (Hc & _ & Hs & _).
  split; [now intros -> |].
  destruct (slugify toLowerCase name) as [| c t]; [reflexivity |].
  simpl in Hc, Hs. apply andb_true_iff in Hc as [Hc _].
  simpl. unfold keep_char at 1. rewrite Hc, Hs. discriminate.
Qed.

Lemma length_replace_runs_from (p : code_unit -> bool) (s : jsstring) (b : bool) :
  (List.length (replace_runs_from p [HYPHEN] b s) <= List.length s)%nat.
Proof.
  revert b. induction s as [| c t IH]; intros b; [reflexivity |].
  simpl. destruct (p c); [destruct b |]; simpl.
  - specialize (IH true). lia.
  - specialize (IH true). lia.
  - specialize (IH false). lia.
Qed.

Lemma length_replace_each (p : code_unit -> bool) (s : jsstring) :
  List.length (replace_each p [HYPHEN] s) = List.length s.
Proof.
  unfold replace_each. induction s as [| c t IH]; [reflexivity |].
  simpl. rewrite length_app, IH. now destruct (p c).
Qed.

Lemma length_drop_final_hyphen (s : jsstring) :
  (List.length (drop_final_hyphen s) <= List.length s)%nat.
Proof.
  induction s as [| c t IH]; [reflexivity |].
  destruct t as [| d t'].
  - simpl. destruct (is_hyphen c); simpl; lia.
  - rewrite drop_final_hyphen_cons. simpl in *. lia.
Qed.

(** X4.  The slug is never longer than the lowercased, trimmed name, and
    for an ASCII name never longer than the name. *)
Theorem slugify_length (toLowerCase : jsstring -> jsstring) (name : jsstring) :
  (List.length (slugify toLowerCase name)
   <= List.length (toLowerCase (trim name)))%nat
  /\ (lowers_ascii toLowerCase ->
      forallb is_ascii name = true ->
      (List.length (slugify toLowerCase name) <= List.length name)%nat).
Proof.
  assert (H : (List.length (slugify toLowerCase name)
               <= List.length (toLowerCase (trim name)))%nat).
  { unfold slugify, replace_runs.
    set (a := replace_runs_from is_white_space [HYPHEN] false
                (toLowerCase (trim name))).
    set (b := replace_each (fun c => negb (slug_char c)) [HYPHEN] a).
    set (d := replace_runs_from is_hyphen [HYPHEN] false b).
    assert (H1 : (List.length (strip_edge_hyphens d) <= List.length d)%nat).
    { destruct d as [| c t]; [reflexivity |].
      unfold strip_edge_hyphens. destruct (is_hyphen c).
      - pose proof (length_drop_final_hyphen t). simpl. lia.
      - apply length_drop_final_hyphen. }
    pose proof (length_replace_runs_from is_hyphen b false) as H2.
    pose proof (length_replace_each (fun c => negb (slug_char c)) a) as H3.
    pose proof (length_replace_runs_from is_white_space
                  (toLowerCase (trim name)) false) as H4.
    fold d in H2. fold b in H3. fold a in H4. lia. }
  split; [exact H |].
  intros lower Ha.
  assert (Htrim : forall x : jsstring,
             (List.length (drop_while is_white_space x) <= List.length x)%nat).
  { induction x as [| c t IH]; [reflexivity |].
    simpl. destruct (is_white_space c); simpl; lia. }
  assert (Hsub : forall c, In c (trim name) -> In c name).
  { intros c Hc. unfold trim, trimEnd, trimStart in Hc.
    apply in_rev in Hc.
    assert (Hd : forall x, In c (drop_while is_white_space x) -> In c x).
    { induction x as [| a x IH]; [auto |].
      simpl. destruct (is_white_space a); [intros; right; auto | auto]. }
    apply Hd in Hc. apply in_rev in Hc. now apply Hd. }
  rewrite lower in H.
  - rewrite length_map in H.
    assert (Hl : (List.length (trim name) <= List.length name)%nat).
    { unfold trim, trimEnd, trimStart. rewrite length_rev.
      pose proof (Htrim (rev (drop_while is_white_space name))) as H5.
      rewrite length_rev in H5. pose proof (Htrim name). lia. }
    lia.
  - apply forallb_forall. intros c Hc.
    rewrite forallb_forall in Ha. now apply Ha, Hsub.
Qed.

Lemma slugify_length_witness :
  (List.length (slugify ascii_toLowerCase (js " My  Cool -- App!! "))
   <= List.length (js " My  Cool -- App!! "))%nat.
Proof.
  exact (proj2 (slugify_length ascii_toLowerCase (js " My  Cool -- App!! "))
           ascii_toLowerCase_lowers eq_refl).
Defined.

(** ** The replacement text and its dollars *)

(** X5.  A dollar in the replacement text changes what is substituted
    only where it is followed by [$], [&], a backquote or a quote: for any
    other text, project names such as "cash$" or "a$1b" among them, every
    occurrence of the pattern found from the left is replaced by the text
    itself. *)
Theorem replace_all_literal (pat templ s : jsstring) :
  pat <> [] ->
  dollar_literal templ = true ->
  (forall matched before after,
      getSubstitution matched before after templ = templ)
  /\ exists l0 ls,
       s = join pat l0 ls
       /\ leftmost_split pat l0 ls
       /\ replace_all pat templ s = join templ l0 ls.
Proof.
  intros Hp Hl. split.
  - intros matched before after. now apply getSubstitution_literal.
  - apply (@replace_all_from_join_literal pat templ (List.length s) Hp Hl).
    lia.
Qed.

Lemma replace_all_literal_witness :
  getSubstitution Alt.NAME_TOKEN (js "name: ") (js ", bin: x") (js "a$1b$")
  = js "a$1b$".
Proof.
  assert (Hp : Alt.NAME_TOKEN <> []) by discriminate.
  exact (proj1 (@replace_all_literal Alt.NAME_TOKEN (js "a$1b$")
                  (js "name: __PROJECT_NAME__, bin: x") Hp eq_refl)
           Alt.NAME_TOKEN (js "name: ") (js ", bin: x")).
Defined.

Lemma occurs_occursb (t s : jsstring) : occurs t s -> occursb t s = true.
Proof.
  intros (a & b & ->). induction a as [| c a IH].
  - simpl. destruct (t ++ b) as [| c u] eqn:E.
    + apply app_eq_nil in E as [-> _]. reflexivity.
    + simpl. rewrite <- E, starts_with_self. reflexivity.
  - simpl. rewrite IH. apply orb_true_r.
Qed.

Lemma occursb_false (t s : jsstring) : occursb t s = false -> ~ occurs t s.
Proof.
  intros H Ho. apply occurs_occursb in Ho. congruence.
Qed.

(** X6.  A manifest in which neither token occurs is written back as it
    was read, whatever the project name, dollars included. *)
Theorem manifest_without_tokens_unchanged (v : variant)
    (toLowerCase : jsstring -> jsstring) (w : world)
    (projectName pkg : jsstring) :
  ~ occurs (name_token_of v) pkg ->
  ~ occurs SLUG_TOKEN pkg ->
  fs_pathExists w (pkgPath w projectName) = true ->
  fs_readFile w (pkgPath w projectName) = Ok pkg ->
  rewrite_manifest (name_token_of v) projectName
    (slugify toLowerCase projectName) pkg = pkg
  /\ trace (rewritePackage toLowerCase w (name_token_of v) projectName)
     = [PathExists (pkgPath w projectName); ReadFile (pkgPath w projectName);
        WriteFile (pkgPath w projectName) pkg].
Proof.
  intros Hn Hs He Hr.
  assert (E : rewrite_manifest (name_token_of v) projectName
                (slugify toLowerCase projectName) pkg = pkg).
  { unfold rewrite_manifest, replace_all.
    rewrite (@replace_all_from_absent (name_token_of v) projectName pkg Hn).
    now apply replace_all_from_absent. }
  split; [exact E |].
  rewrite (@rewritePackage_present toLowerCase w (name_token_of v)
             projectName pkg He Hr).
  now rewrite E.
Qed.

Lemma manifest_without_tokens_unchanged_witness :
  trace (rewritePackage ascii_toLowerCase plain_manifest_world Alt.NAME_TOKEN
           (js "app"))
  = [PathExists (js "/work/app/package.json");
     ReadFile (js "/work/app/package.json");
     WriteFile (js "/work/app/package.json") (js "{ name: fixed }")].
Proof.
  assert (Hn : ~ occurs (name_token_of SecondScript) (js "{ name: fixed }"))
    by (apply occursb_false; reflexivity).
  assert (Hs : ~ occurs SLUG_TOKEN (js "{ name: fixed }"))
    by (apply occursb_false; reflexivity).
  exact (proj2 (@manifest_without_tokens_unchanged SecondScript
                  ascii_toLowerCase plain_manifest_world (js "app")
                  (js "{ name: fixed }") Hn Hs eq_refl eq_refl)).
Defined.

(** X7.  Under the conditions that clear the tokens (a project name
    without a dollar, name and slug non-empty and sharing no code unit
    with the tokens), rewriting a rewritten manifest changes nothing. *)
Theorem rewrite_manifest_idempotent (v : variant)
    (toLowerCase : jsstring -> jsstring) (projectName pkg : jsstring) :
  has_dollar projectName = false ->
  projectName <> [] ->
  slugify toLowerCase projectName <> [] ->
  disjoint_chars projectName (name_token_of v ++ SLUG_TOKEN) = true ->
  disjoint_chars (slugify toLowerCase projectName)
    (name_token_of v ++ SLUG_TOKEN) = true ->
  rewrite_manifest (name_token_of v) projectName
    (slugify toLowerCase projectName)
    (rewrite_manifest (name_token_of v) projectName
       (slugify toLowerCase projectName) pkg)
  = rewrite_manifest (name_token_of v) projectName
      (slugify toLowerCase projectName) pkg.
Proof.
  intros Hn Hne Hse Hdn Hds.
  assert (Hs : has_dollar (slugify toLowerCase projectName) = false)
    by (apply slug_no_dollar; apply slugify_shape).
  destruct (@rewrite_manifest_clean (name_token_of v) projectName
              (slugify toLowerCase projectName) pkg
              (name_token_nonempty v) Hn Hs Hne Hse Hdn Hds) as [H1 H2].
  unfold rewrite_manifest at 1. unfold replace_all.
  rewrite (@replace_all_from_absent (name_token_of v) projectName _ H1).
  now apply replace_all_from_absent.
Qed.

Lemma rewrite_manifest_idempotent_witness :
  rewrite_manifest Alt.NAME_TOKEN (js "my-app")
    (slugify ascii_toLowerCase (js "my-app"))
    (rewrite_manifest Alt.NAME_TOKEN (js "my-app")
       (slugify ascii_toLowerCase (js "my-app"))
       (js "{ name: __PROJECT_SLUG__, title: __PROJECT_NAME__ }"))
  = rewrite_manifest Alt.NAME_TOKEN (js "my-app")
      (slugify ascii_toLowerCase (js "my-app"))
      (js "{ name: __PROJECT_SLUG__, title: __PROJECT_NAME__ }").
Proof.
  assert (Hne : js "my-app" <> []) by discriminate.
  assert (Hse : slugify ascii_toLowerCase (js "my-app") <> []) by discriminate.
  exact (@rewrite_manifest_idempotent SecondScript ascii_toLowerCase
           (js "my-app")
           (js "{ name: __PROJECT_SLUG__, title: __PROJECT_NAME__ }")
           eq_refl Hne Hse eq_refl eq_refl).
Defined.

(** ** The name prompt *)

(** X8.  A prompted project name is the trimmed form of the first
    submission that is not blank: it is a submission of the user, is not
    empty and has no white space left at either end. *)
Theorem prompted_name_trimmed (w : world) (projectName : option jsstring)
    (t : list event) (name : jsstring) :
  projectName = None \/ projectName = Some [] ->
  resolveProjectName w projectName = (t, Normal name) ->
  exists v,
    find validate (typed_names w) = Some v
    /\ In v (typed_names w)
    /\ name = trim v
    /\ name <> []
    /\ trim name = name
    /\ t = [PromptText (js "Project name:")].
Proof.
  intros Hp H.
  assert (E : resolveProjectName w projectName
              = bind (emit (PromptText (js "Project name:")))
                  (fun _ => match ask_name w with
                            | Answered v => ret (trim v)
                            | Cancelled =>
                                bind (emit (ConsoleLog (js "Aborted.")))
                                  (fun _ => process_exit 1%Z)
                            end))
    by (destruct Hp as [-> | ->]; reflexivity).
  rewrite E in H. unfold ask_name in H.
  destruct (find validate (typed_names w)) as [v |] eqn:Ef;
    [| discriminate].
  injection H as <- <-. exists v.
  apply find_some in Ef as [Hin Hv].
  repeat split; try assumption.
  - unfold validate in Hv. destruct v as [| c v']; [discriminate |].
    intros Hnil. rewrite Hnil in Hv. discriminate.
  - apply trim_idem.
Qed.

Lemma prompted_name_trimmed_witness :
  exists v,
    find validate (typed_names typing_world) = Some v
    /\ In v (typed_names typing_world)
    /\ js "my app" = trim v
    /\ js "my app" <> []
    /\ trim (js "my app") = js "my app"
    /\ [PromptText (js "Project name:")] = [PromptText (js "Project name:")].
Proof.
  exact (@prompted_name_trimmed typing_world None
           [PromptText (js "Project name:")] (js "my app")
           (or_introl eq_refl) eq_refl).
Defined.

(** X9.  When no name is given and the name prompt is cancelled, the run
    prints "Aborted." and exits with code 1 having done nothing else, in
    both variants. *)
Theorem cancelled_name_prompt_aborts (v : variant)
    (toLowerCase : jsstring -> jsstring) (w : world)
    (projectName : option jsstring) (o : options) :
  projectName = None \/ projectName = Some [] ->
  find validate (typed_names w) = None ->
  action_of v toLowerCase w projectName o
  = ([PromptText (js "Project name:"); ConsoleLog (js "Aborted.")],
     Exit 1%Z).
Proof.
  intros Hp Hf.
  assert (E : prelude w projectName
              = ([PromptText (js "Project name:"); ConsoleLog (js "Aborted.")],
                 Exit 1%Z)).
  { unfold prelude, resolveProjectName, ask_name. rewrite Hf.
    destruct Hp as [-> | ->]; reflexivity. }
  destruct v; simpl; unfold Bin.action, Bin.body, Alt.action, Alt.body;
    now rewrite E.
Qed.

Lemma cancelled_name_prompt_aborts_witness :
  exit_code (Bin.action ascii_toLowerCase calm_world None bin_defaults) = 1%Z.
Proof.
  exact (f_equal (@exit_code unit)
           (@cancelled_name_prompt_aborts BinIndex ascii_toLowerCase
              calm_world None bin_defaults (or_introl eq_refl) eq_refl)).
Defined.

(** ** The guard *)

(** X10.  The overwrite question is asked exactly when the target path
    exists and its listing succeeds and is not empty; when the path is
    absent or the listing empty the guard returns at once, asking and
    removing nothing. *)
Theorem overwrite_prompt_iff (w : world) (name : jsstring) :
  (existsb is_prompt_confirm (trace (guardTarget w name)) = true
   <-> fs_pathExists w (targetDir w name) = true
       /\ exists f fs, fs_readdir w (targetDir w name) = Ok (f :: fs))
  /\ (fs_pathExists w (targetDir w name) = false ->
      guardTarget w name = ([PathExists (targetDir w name)], Normal tt))
  /\ (fs_pathExists w (targetDir w name) = true ->
      fs_readdir w (targetDir w name) = Ok [] ->
      guardTarget w name
      = ([PathExists (targetDir w name); Readdir (targetDir w name)],
         Normal tt)).
Proof.
  unfold guardTarget, query, call, emit, bind, trace.
  destruct (fs_pathExists w (targetDir w name)).
  - destruct (fs_readdir w (targetDir w name)) as [[| f fs] | e].
    + repeat split; try discriminate.
      intros [_ (f & fs & E)]. discriminate.
    + split; [| split; discriminate]. split.
      * intros _. split; [reflexivity | now exists f, fs].
      * intros _. destruct (confirm_overwrite w) as [[|] |];
          [destruct (fs_remove w (targetDir w name)) |..]; reflexivity.
    + repeat split; try discriminate.
      intros [_ (f & fs & E)]. discriminate.
  - repeat split; try discriminate. intros [E _]. discriminate.
Qed.

Lemma overwrite_prompt_iff_witness :
  guardTarget calm_world (js "app")
  = ([PathExists (js "/work/app")], Normal tt).
Proof.
  exact (proj1 (proj2 (overwrite_prompt_iff calm_world (js "app"))) eq_refl).
Defined.

(** X11.  When the target path exists but cannot be listed (a file is in
    the way, say), the run reports the error of the listing and exits
    with code 1; nothing is asked, removed or fetched. *)
Theorem unlistable_target_aborts (v : variant)
    (toLowerCase : jsstring -> jsstring) (w : world)
    (projectName : option jsstring) (o : options) (name : jsstring)
    (t0 : list event) (e : error) :
  resolveProjectName w projectName = (t0, Normal name) ->
  fs_pathExists w (targetDir w name) = true ->
  fs_readdir w (targetDir w name) = Fail e ->
  action_of v toLowerCase w projectName o
  = (t0 ++ [PathExists (targetDir w name); Readdir (targetDir w name);
            error_event e],
     Exit 1%Z).
Proof.
  intros Hn He Hr.
  assert (E : prelude w projectName
              = (t0 ++ [PathExists (targetDir w name);
                        Readdir (targetDir w name)], Throw e)).
  { unfold prelude. rewrite Hn, bind_normal.
    unfold guardTarget, query, call, bind. now rewrite He, Hr. }
  destruct v; simpl; unfold Bin.action, Bin.body, Alt.action, Alt.body;
    rewrite E; simpl; now rewrite <- app_assoc.
Qed.

Lemma unlistable_target_aborts_witness :
  Alt.action ascii_toLowerCase file_in_the_way_world (Some (js "app"))
    alt_defaults
  = ([PathExists (js "/work/app"); Readdir (js "/work/app");
      error_event NOT_A_DIRECTORY], Exit 1%Z).
Proof.
  exact (@unlistable_target_aborts SecondScript ascii_toLowerCase
           file_in_the_way_world (Some (js "app")) alt_defaults (js "app")
           [] NOT_A_DIRECTORY eq_refl eq_refl eq_refl).
Defined.

(** ** Whole runs *)

Lemma exits_bind {A B} (m : io A) (k : A -> io B) :
  exits_one m -> (forall a, exits_one (k a)) -> exits_one (bind m k).
Proof.
  unfold exits_one. destruct m as [t [a | e | n]]; simpl; intros Hm Hk n'.
  - specialize (Hk a n'). destruct (k a) as [t' c]. exact Hk.
  - discriminate.
  - intros H. injection H as <-. now apply Hm.
Qed.

Lemma exits_try_catch {A} (m : io A) (h : error -> io A) :
  exits_one m -> (forall e, exits_one (h e)) -> exits_one (try_catch m h).
Proof.
  unfold exits_one. destruct m as [t [a | e | n]]; simpl; intros Hm Hh n'.
  - discriminate.
  - specialize (Hh e n'). destruct (h e) as [t' c]. exact Hh.
  - apply Hm.
Qed.

Lemma exits_call {A} (ev : event) (r : result A) : exits_one (call ev r).
Proof. intros n. destruct r; discriminate. Qed.

Lemma exits_emit (ev : event) : exits_one (emit ev).
Proof. intros n. discriminate. Qed.

Lemma exits_ret {A} (a : A) : exits_one (ret a).
Proof. intros n. discriminate. Qed.

Lemma exits_throw {A} (e : error) : exits_one (@throw A e).
Proof. intros n. discriminate. Qed.

Lemma exits_query {A} (ev : event) (a : A) : exits_one (query ev a).
Proof. intros n. discriminate. Qed.

Lemma exits_process_exit {A} : exits_one (@process_exit A 1%Z).
Proof. intros n H. now injection H. Qed.

Ltac all_exits :=
  repeat first
    [ apply exits_bind; [| intros ?]
    | apply exits_try_catch; [| intros ?]
    | apply exits_call
    | apply exits_emit
    | apply exits_ret
    | apply exits_throw
    | apply exits_query
    | apply exits_process_exit
    | match goal with
      | |- context [if ?b then _ else _] => destruct b
      | |- context [match ?x with _ => _ end] => destruct x
      end ].

Ltac unfold_stages :=
  unfold before_summary, scaffold_of, initGit_of, bin_scaffold, alt_scaffold,
    prelude, resolveProjectName, guardTarget, ask_name, rewritePackage,
    Bin.fetchTemplate, Bin.tryClone, Alt.fetchTemplate, failed_clone_lines,
    Bin.installDependencies, Alt.installDependencies, Alt.detectInstaller,
    Bin.initGit, Alt.initGit, summary.

Lemma before_summary_exits (v : variant) (toLowerCase : jsstring -> jsstring)
    (w : world) (projectName : option jsstring) (o : options) :
  exits_one (before_summary v toLowerCase w projectName o).
Proof. destruct v; unfold_stages; all_exits. Qed.

Lemma before_summary_not_done (v : variant)
    (toLowerCase : jsstring -> jsstring) (w : world)
    (projectName : option jsstring) (o : options) :
  forallb (fun e => negb (is_done e))
    (trace (before_summary v toLowerCase w projectName o)) = true.
Proof. destruct v; unfold_stages; unfold query, throw; all_events. Qed.

Lemma body_before_summary (v : variant) (toLowerCase : jsstring -> jsstring)
    (w : world) (projectName : option jsstring) (o : options) :
  action_of v toLowerCase w projectName o
  = try_catch
      (bind (before_summary v toLowerCase w projectName o)
         (fun name => summary o name))
      report.
Proof.
  destruct v; simpl; unfold Bin.action, Alt.action, before_summary; simpl;
    f_equal.
  - rewrite bin_body_scaffold, bind_assoc. apply bind_ext. intros name.
    rewrite bind_assoc. apply bind_ext. intros _. now rewrite bind_ret_l.
  - rewrite alt_body_scaffold, bind_assoc. apply bind_ext. intros name.
    rewrite bind_assoc. apply bind_ext. intros _. now rewrite bind_ret_l.
Qed.

Lemma forallb_negb_existsb {A} (f : A -> bool) (l : list A) :
  forallb (fun x => negb (f x)) l = true -> existsb f l = false.
Proof.
  induction l as [| x l IH]; [reflexivity |].
  simpl. intros H. apply andb_true_iff in H as [Hx Hl].
  apply negb_true_iff in Hx. now rewrite Hx, IH.
Qed.

(** X12.  No exception escapes the callback, [process.exit] is never
    reached with a code other than 1, and the line "Done!" is printed only
    in runs that return normally, with exit code 0: a run that exits
    with code 1 has not printed it. *)
Theorem run_exit_codes (v : variant) (toLowerCase : jsstring -> jsstring)
    (w : world) (projectName : option jsstring) (o : options) :
  (forall e, snd (action_of v toLowerCase w projectName o) <> Throw e)
  /\ (forall n,
        snd (action_of v toLowerCase w projectName o) = Exit n -> n = 1%Z)
  /\ (existsb is_done (trace (action_of v toLowerCase w projectName o)) = true
      -> snd (action_of v toLowerCase w projectName o) = Normal tt
         /\ exit_code (action_of v toLowerCase w projectName o) = 0%Z).
Proof.
  rewrite body_before_summary.
  pose proof (before_summary_exits v toLowerCase w projectName o) as He.
  pose proof (before_summary_not_done v toLowerCase w projectName o) as Hd.
  apply forallb_negb_existsb in Hd.
  destruct (before_summary v toLowerCase w projectName o)
    as [t [name | e | n]]; unfold trace in *; simpl in Hd.
  - simpl. split; [discriminate |]. split; [discriminate |].
    intros _. now split.
  - simpl. split; [discriminate |].
    split; [intros n H; now injection H |].
    rewrite existsb_app, Hd. simpl. discriminate.
  - rewrite (He n eq_refl). simpl. split; [discriminate |].
    split; [intros n' H; now injection H |].
    rewrite Hd. discriminate.
Qed.

Lemma run_exit_codes_witness :
  snd (Bin.action ascii_toLowerCase calm_world (Some (js "app")) bin_defaults)
  = Normal tt
  /\ exit_code (Bin.action ascii_toLowerCase calm_world (Some (js "app"))
                  bin_defaults) = 0%Z.
Proof.
  exact (proj2 (proj2 (run_exit_codes BinIndex ascii_toLowerCase calm_world
                         (Some (js "app")) bin_defaults)) eq_refl).
Defined.

(** X13.  The target directory is removed only with the user's consent:
    if a run removes anything, the answer to the overwrite question was
    yes. *)
Theorem removal_needs_consent (v : variant)
    (toLowerCase : jsstring -> jsstring) (w : world)
    (projectName : option jsstring) (o : options) :
  existsb is_remove (trace (action_of v toLowerCase w projectName o)) = true ->
  confirm_overwrite w = Answered true.
Proof.
  intros H. destruct (confirm_overwrite w) as [[|] |] eqn:E; [reflexivity | |];
    exfalso;
    (assert (Hq : forallb (fun e => negb (is_remove e))
                    (trace (action_of v toLowerCase w projectName o)) = true);
     [| apply forallb_negb_existsb in Hq; congruence]);
    destruct v; simpl; unfold Bin.action, Bin.body, Alt.action, Alt.body;
    unfold_stages; unfold query, throw, report; rewrite E; all_events.
Qed.

Lemma removal_needs_consent_witness :
  confirm_overwrite overwrite_world = Answered true.
Proof.
  exact (@removal_needs_consent BinIndex ascii_toLowerCase overwrite_world
           (Some (js "app")) bin_defaults eq_refl).
Defined.

(** ** Subprocesses *)

Lemma detectInstaller_cases (w : world) (a : jsstring) :
  snd (Alt.detectInstaller w) = Normal a ->
  a = Alt.PNPM \/ a = Alt.YARN \/ a = Alt.NPM.
Proof.
  unfold Alt.detectInstaller, call, try_catch, bind, ret.
  destruct (execa w Alt.PNPM [js "--version"] None);
    [| destruct (execa w Alt.YARN [js "--version"] None)];
    simpl; intros H; injection H as <-; auto.
Qed.

Lemma alt_install_no_git (w : world) (o : options) (name : jsstring) :
  forallb (fun e => negb (is_git e))
    (trace (Alt.installDependencies w o name)) = true.
Proof.
  unfold Alt.installDependencies. destruct (install o); [| reflexivity].
  apply all_bind.
  - unfold Alt.detectInstaller. all_events.
  - intros a Ha. apply detectInstaller_cases in Ha.
    destruct Ha as [-> | [-> | ->]]; unfold throw; all_events.
Qed.

(** X15.  Without the install flag the only subprocesses a run starts
    are [git] ones: no package manager is probed or run. *)
Theorem install_absent_only_git (v : variant)
    (toLowerCase : jsstring -> jsstring) (w : world)
    (projectName : option jsstring) (o : options) :
  install o = false ->
  forallb only_git (trace (action_of v toLowerCase w projectName o)) = true.
Proof.
  intros Hi.
  destruct v; simpl; unfold Bin.action, Bin.body, Alt.action, Alt.body;
    unfold Bin.installDependencies, Alt.installDependencies;
    rewrite Hi; unfold_stages; unfold query, throw, report; all_events.
Qed.

Lemma install_absent_only_git_witness :
  forallb only_git
    (trace (Bin.action ascii_toLowerCase calm_world (Some (js "app"))
              bin_defaults)) = true
  /\ forallb only_git
       (trace (Alt.action ascii_toLowerCase calm_world (Some (js "app"))
                 alt_defaults)) = true.
Proof.
  split.
  - exact (@install_absent_only_git BinIndex ascii_toLowerCase
             calm_world (Some (js "app")) bin_defaults eq_refl).
  - exact (@install_absent_only_git SecondScript ascii_toLowerCase
             calm_world (Some (js "app")) alt_defaults eq_refl).
Defined.

Lemma action_prepared (v : variant) (toLowerCase : jsstring -> jsstring)
    (w : world) (projectName : option jsstring) (o : options) :
  action_of v toLowerCase w projectName o
  = try_catch
      (bind (prepared_of v toLowerCase w projectName o)
         (fun name =>
            bind (installDependencies_of v w o name)
              (fun _ => bind (initGit_of v w o name)
                          (fun _ => summary o name))))
      report.
Proof.
  destruct v;
    unfold action_of, prepared_of, fetchTemplate_of, installDependencies_of,
      initGit_of, name_token_of, Bin.action, Bin.body, Alt.action, Alt.body;
    apply (f_equal (fun m => try_catch m report)).
  - rewrite bind_assoc. apply bind_ext. intros name.
    rewrite !bind_assoc. apply bind_ext. intros _.
    rewrite bind_ret_l. cbv beta.
    apply bind_ext. intros _. now rewrite bind_ret_l.
  - rewrite bind_assoc. apply bind_ext. intros name.
    rewrite bind_assoc. apply bind_ext. intros _.
    rewrite bind_assoc. apply bind_ext. intros _.
    now rewrite bind_ret_l.
Qed.

Lemma prepared_no_git (v : variant) (toLowerCase : jsstring -> jsstring)
    (w : world) (projectName : option jsstring) (o : options) :
  forallb (fun e => negb (is_git e))
    (trace (prepared_of v toLowerCase w projectName o)) = true.
Proof.
  destruct v; unfold prepared_of, fetchTemplate_of; unfold_stages;
    unfold query, throw; all_events.
Qed.

Lemma install_no_git (v : variant) (w : world) (o : options) (name : jsstring) :
  forallb (fun e => negb (is_git e))
    (trace (installDependencies_of v w o name)) = true.
Proof.
  destruct v; simpl; [| apply alt_install_no_git].
  unfold Bin.installDependencies, throw. all_events.
Qed.

(** X16.  A failure in the install stage is fatal: the run reports the
    error and exits with code 1, and the version-control stage is not
    entered, so that no [git] subprocess has been started.  The stage can
    only fail when the install flag is set. *)
Theorem install_failure_fatal (v : variant)
    (toLowerCase : jsstring -> jsstring) (w : world)
    (projectName : option jsstring) (o : options) (name : jsstring)
    (t0 ti : list event) (e : error) :
  prepared_of v toLowerCase w projectName o = (t0, Normal name) ->
  installDependencies_of v w o name = (ti, Throw e) ->
  action_of v toLowerCase w projectName o
  = (t0 ++ ti ++ [error_event e], Exit 1%Z)
  /\ install o = true
  /\ forallb (fun e => negb (is_git e))
       (trace (action_of v toLowerCase w projectName o)) = true.
Proof.
  intros Hp Hi.
  assert (Ha : action_of v toLowerCase w projectName o
               = (t0 ++ ti ++ [error_event e], Exit 1%Z)).
  { rewrite action_prepared, Hp, bind_normal, Hi. simpl.
    now rewrite <- app_assoc. }
  split; [exact Ha | split].
  - destruct (install o) eqn:E; [reflexivity |].
    destruct v; simpl in Hi;
      unfold Bin.installDependencies, Alt.installDependencies in Hi;
      rewrite E in Hi; discriminate.
  - rewrite Ha. unfold trace. simpl fst.
    pose proof (prepared_no_git v toLowerCase w projectName o) as H0.
    pose proof (install_no_git v w o name) as H1.
    rewrite Hp in H0. rewrite Hi in H1. unfold trace in H0, H1.
    simpl in H0, H1. rewrite !forallb_app, H0, H1. reflexivity.
Qed.

Lemma install_failure_fatal_witness :
  Bin.action ascii_toLowerCase bare_world (Some (js "app"))
    (mkOptions (Some DEFAULT_TEMPLATE) (Some (js "owner/repo")) true false)
  = ([PathExists (js "/work/app"); ConsoleLog (creating_line (js "app"));
      Degit (js "owner/repo/template");
      Clone (js "owner/repo/template") (js "/work/app");
      PathExists (js "/work/app/package.json");
      ImportExeca;
      ConsoleLog (js "Installing dependencies with npm...");
      Execa (js "npm") [js "install"] (Some (js "/work/app"));
      ConsoleError
        [PStr (js "npm install failed. You can run it manually inside the new project.")];
      error_event NO_SUCH_COMMAND],
     Exit 1%Z).
Proof.
  exact (proj1 (@install_failure_fatal BinIndex ascii_toLowerCase bare_world
                  (Some (js "app"))
                  (mkOptions (Some DEFAULT_TEMPLATE) (Some (js "owner/repo"))
                     true false)
                  (js "app") _ _ NO_SUCH_COMMAND eq_refl eq_refl)).
Defined.

(** X17.  When the install flag is set, the second variant probes for the
    installer, announces it and runs [pnpm install], [yarn] without
    arguments, or [npm install] in the target directory, according to the
    installer found; the stage returns normally exactly when that command
    succeeds. *)
Theorem alt_install_command (w : world) (o : options) (name : jsstring) :
  install o = true ->
  exists probes installer args tail,
    Alt.detectInstaller w = (probes, Normal installer)
    /\ In (installer, args) install_commands
    /\ trace (Alt.installDependencies w o name)
       = probes
         ++ ConsoleLog (js "Installing dependencies with " ++ installer
                        ++ js "...")
         :: Execa installer args (Some (targetDir w name)) :: tail
    /\ (snd (Alt.installDependencies w o name) = Normal tt
        <-> execa w installer args (Some (targetDir w name)) = Ok tt).
Proof.
  intros Hi. unfold Alt.installDependencies. rewrite Hi.
  unfold Alt.detectInstaller, call, emit, try_catch, bind, ret, throw.
  destruct (execa w Alt.PNPM [js "--version"] None);
    [| destruct (execa w Alt.YARN [js "--version"] None)]; cbn;
    match goal with
    | |- context [match execa ?a ?b ?c ?d with _ => _ end] =>
        destruct (execa a b c d) as [[] |] eqn:E
    end; cbn.
  - exists [Execa Alt.PNPM [js "--version"] None], Alt.PNPM, [js "install"],
      [ConsoleLog (js "Dependencies installed.")].
    repeat split; cbn; auto; try (intros _; exact E).
  - exists [Execa Alt.PNPM [js "--version"] None], Alt.PNPM, [js "install"],
      [ConsoleError
         [PStr (js "Package installation failed. You can run the installer manually inside the new project.")]].
    repeat split; cbn; auto; try discriminate;
      try (intros H; pose proof (eq_trans (eq_sym E) H); discriminate).
  - exists [Execa Alt.PNPM [js "--version"] None;
            Execa Alt.YARN [js "--version"] None], Alt.YARN, [],
      [ConsoleLog (js "Dependencies installed.")].
    repeat split; cbn; auto; try (intros _; exact E).
  - exists [Execa Alt.PNPM [js "--version"] None;
            Execa Alt.YARN [js "--version"] None], Alt.YARN, [],
      [ConsoleError
         [PStr (js "Package installation failed. You can run the installer manually inside the new project.")]].
    repeat split; cbn; auto; try discriminate;
      try (intros H; pose proof (eq_trans (eq_sym E) H); discriminate).
  - exists [Execa Alt.PNPM [js "--version"] None;
            Execa Alt.YARN [js "--version"] None], Alt.NPM, [js "install"],
      [ConsoleLog (js "Dependencies installed.")].
    repeat split; cbn; auto; try (intros _; exact E).
  - exists [Execa Alt.PNPM [js "--version"] None;
            Execa Alt.YARN [js "--version"] None], Alt.NPM, [js "install"],
      [ConsoleError
         [PStr (js "Package installation failed. You can run the installer manually inside the new project.")]].
    repeat split; cbn; auto; try discriminate;
      try (intros H; pose proof (eq_trans (eq_sym E) H); discriminate).
Qed.

Lemma alt_install_command_witness :
  exists probes installer args tail,
    Alt.detectInstaller calm_world = (probes, Normal installer)
    /\ In (installer, args) install_commands
    /\ trace (Alt.installDependencies calm_world
                (mkOptions None None true false) (js "app"))
       = probes
         ++ ConsoleLog (js "Installing dependencies with " ++ installer
                        ++ js "...")
         :: Execa installer args (Some (targetDir calm_world (js "app")))
         :: tail
    /\ (snd (Alt.installDependencies calm_world
               (mkOptions None None true false) (js "app")) = Normal tt
        <-> execa calm_world installer args
              (Some (targetDir calm_world (js "app"))) = Ok tt).
Proof.
  exact (@alt_install_command calm_world (mkOptions None None true false)
           (js "app") eq_refl).
Defined.

(** ** The retried spec *)

(** X18.  When the descriptor starts with [github:], the spec of the
    retry is the failed spec without these seven code units, whatever the
    template path: the two specs differ, and the retry never asks for the
    spec that has just failed. *)
Theorem fallback_spec_drops_prefix (o : options) :
  starts_with GITHUB_PREFIX (repoBase o) = true ->
  Bin.repoSpec o = GITHUB_PREFIX ++ Bin.fallbackSpec o
  /\ Bin.fallbackSpec o <> Bin.repoSpec o.
Proof.
  intros H.
  assert (E : Bin.repoSpec o = GITHUB_PREFIX ++ Bin.fallbackSpec o).
  { unfold Bin.repoSpec, Bin.fallbackSpec, Bin.fallbackBase, Bin.buildSpec.
    destruct (jsstring_eqb (Bin.templatePath o) DOT).
    - now apply strip_prefix_split.
    - rewrite (@strip_prefix_split GITHUB_PREFIX (repoBase o) H) at 1.
      now rewrite <- app_assoc. }
  split; [exact E |].
  intros Hc. apply (f_equal (@List.length _)) in E.
  rewrite <- Hc, length_app in E. simpl in E. lia.
Qed.

Lemma fallback_spec_drops_prefix_witness :
  Bin.repoSpec (mkOptions (Some (js "/api/")) (Some (js " github:owner/repo/ "))
                  false false)
  = GITHUB_PREFIX
    ++ Bin.fallbackSpec
         (mkOptions (Some (js "/api/")) (Some (js " github:owner/repo/ "))
            false false).
Proof.
  exact (proj1 (@fallback_spec_drops_prefix
                  (mkOptions (Some (js "/api/"))
                     (Some (js " github:owner/repo/ ")) false false)
                  eq_refl)).
Defined.

(** ** The manifest is written after a fetch *)

Lemma exists_bind_l {A B} (f : event -> bool) (m : io A) (k : A -> io B) :
  existsb f (trace m) = true -> existsb f (trace (bind m k)) = true.
Proof.
  destruct m as [t [a | e | n]]; simpl; intros H; try exact H.
  destruct (k a) as [t' c]. simpl. now rewrite existsb_app, H.
Qed.

Lemma exists_try_catch {A} (f : event -> bool) (m : io A) (h : error -> io A) :
  existsb f (trace m) = true -> existsb f (trace (try_catch m h)) = true.
Proof.
  destruct m as [t [a | e | n]]; simpl; intros H; try exact H.
  destruct (h e) as [t' c]. simpl. now rewrite existsb_app, H.
Qed.

Lemma fetch_normal_cloned (v : variant) (w : world) (o : options)
    (name : jsstring) :
  (exists u, snd (fetchTemplate_of v w o name) = Normal u) ->
  existsb (cloned_ok w) (trace (fetchTemplate_of v w o name)) = true.
Proof.
  destruct v; unfold fetchTemplate_of, Bin.fetchTemplate, Bin.tryClone,
    Alt.fetchTemplate, failed_clone_lines, call, emit, try_catch, bind, ret,
    throw, trace;
    [destruct (starts_with GITHUB_PREFIX (repoBase o)) |];
    repeat match goal with
      | |- context [match degit_new ?a ?b with _ => _ end] =>
          destruct (degit_new a b); cbn
      | |- context [match degit_clone ?a ?b ?c with _ => _ end] =>
          destruct (degit_clone a b c) eqn:?; cbn
      end;
    intros [u Hu]; try discriminate;
    repeat match goal with
      | H : degit_clone _ _ _ = _ |- _ => rewrite H; clear H
      end;
    cbn; rewrite ?orb_true_r; reflexivity.
Qed.

Lemma prelude_no_write (w : world) (projectName : option jsstring) :
  forallb (fun e => negb (is_write e)) (trace (prelude w projectName)) = true.
Proof. unfold_stages. unfold query. all_events. Qed.

Lemma fetch_no_write (v : variant) (w : world) (o : options) (name : jsstring) :
  forallb (fun e => negb (is_write e))
    (trace (fetchTemplate_of v w o name)) = true.
Proof.
  destruct v; unfold fetchTemplate_of; unfold_stages; unfold throw;
    all_events.
Qed.

Lemma action_fetched (v : variant) (toLowerCase : jsstring -> jsstring)
    (w : world) (projectName : option jsstring) (o : options) :
  action_of v toLowerCase w projectName o
  = try_catch
      (bind (prelude w projectName)
         (fun name =>
            bind (fetchTemplate_of v w o name)
              (fun _ =>
                 bind (rewritePackage toLowerCase w (name_token_of v) name)
                   (fun _ =>
                      bind (installDependencies_of v w o name)
                        (fun _ => bind (initGit_of v w o name)
                                    (fun _ => summary o name))))))
      report.
Proof.
  destruct v;
    unfold action_of, fetchTemplate_of, installDependencies_of, initGit_of,
      name_token_of, Bin.action, Bin.body, Alt.action, Alt.body;
    [| reflexivity].
  apply (f_equal (fun m => try_catch m report)).
  apply bind_ext. intros name. rewrite bind_assoc.
  apply bind_ext. intros _. now rewrite bind_ret_l.
Qed.

(** X19.  The manifest is written only after a fetch that succeeded: a
    run in which [package.json] is written holds a [clone] call that
    returned normally. *)
Theorem manifest_written_after_fetch (v : variant)
    (toLowerCase : jsstring -> jsstring) (w : world)
    (projectName : option jsstring) (o : options) :
  existsb is_write (trace (action_of v toLowerCase w projectName o)) = true ->
  existsb (cloned_ok w) (trace (action_of v toLowerCase w projectName o))
  = true.
Proof.
  rewrite action_fetched.
  pose proof (prelude_no_write w projectName) as H0.
  destruct (prelude w projectName) as [t0 [name | e | n]] eqn:Ep;
    unfold trace in H0; simpl in H0; apply forallb_negb_existsb in H0.
  - pose proof (fetch_no_write v w o name) as H1.
    pose proof (@fetch_normal_cloned v w o name) as H2.
    rewrite bind_normal.
    destruct (fetchTemplate_of v w o name) as [tf [u | e | n]] eqn:Ef;
      unfold trace in H1, H2; simpl in H1, H2;
      apply forallb_negb_existsb in H1.
    + intros _. rewrite bind_normal.
      set (rest := bind _ _).
      destruct rest as [tr [[] | e | n]]; unfold trace; simpl;
        rewrite ?existsb_app, (H2 (ex_intro _ u eq_refl));
        now rewrite ?orb_true_r, ?orb_true_l.
    + unfold trace. simpl. rewrite !existsb_app, H0, H1. discriminate.
    + unfold trace. simpl. rewrite !existsb_app, H0, H1. discriminate.
  - unfold trace. simpl. rewrite existsb_app, H0. discriminate.
  - unfold trace. simpl. rewrite H0. discriminate.
Qed.

Lemma manifest_written_after_fetch_witness :
  existsb (cloned_ok overwrite_world)
    (trace (Alt.action ascii_toLowerCase overwrite_world (Some (js "app"))
              alt_defaults)) = true.
Proof.
  exact (@manifest_written_after_fetch SecondScript ascii_toLowerCase
           overwrite_world (Some (js "app")) alt_defaults eq_refl).
Defined.

(** ** The order and the number of effects *)

Lemma trace_bind {A B} (m : io A) (k : A -> io B) :
  trace (bind m k)
  = trace m ++ match snd m with
               | Normal a => trace (k a)
               | _ => []
               end.
Proof.
  destruct m as [t [a | e | n]]; unfold trace; simpl;
    [now destruct (k a) | now rewrite app_nil_r | now rewrite app_nil_r].
Qed.

Lemma trace_try_catch {A} (m : io A) (h : error -> io A) :
  trace (try_catch m h)
  = trace m ++ match snd m with
               | Throw e => trace (h e)
               | _ => []
               end.
Proof.
  destruct m as [t [a | e | n]]; unfold trace; simpl;
    [now rewrite app_nil_r | now destruct (h e) | now rewrite app_nil_r].
Qed.

Lemma forallb_negb_filter {A} (f : A -> bool) (l : list A) :
  forallb (fun x => negb (f x)) l = true -> filter f l = [].
Proof.
  induction l as [| x l IH]; [reflexivity |].
  simpl. intros H. apply andb_true_iff in H as [Hx Hl].
  apply negb_true_iff in Hx. rewrite Hx. now apply IH.
Qed.

Lemma after_fetch_no_remove (v : variant) (toLowerCase : jsstring -> jsstring)
    (w : world) (o : options) (name : jsstring) :
  forallb (fun e => negb (is_remove e))
    (trace (bind (fetchTemplate_of v w o name)
              (fun _ =>
                 bind (rewritePackage toLowerCase w (name_token_of v) name)
                   (fun _ =>
                      bind (installDependencies_of v w o name)
                        (fun _ => bind (initGit_of v w o name)
                                    (fun _ => summary o name))))))
  = true.
Proof.
  destruct v; unfold fetchTemplate_of, installDependencies_of, initGit_of;
    unfold_stages; unfold query, throw; all_events.
Qed.

Lemma prelude_builds_nothing (w : world) (projectName : option jsstring) :
  forallb (fun e => negb (builds e)) (trace (prelude w projectName)) = true.
Proof. unfold_stages. unfold query. all_events. Qed.

(** X20.  Whatever a run removes, it removes before it fetches, writes
    the manifest or starts a subprocess: the trace of a run splits in a
    first part without any of these and a second part without
    removal. *)
Theorem removal_precedes_building (v : variant)
    (toLowerCase : jsstring -> jsstring) (w : world)
    (projectName : option jsstring) (o : options) :
  exists t1 t2,
    trace (action_of v toLowerCase w projectName o) = t1 ++ t2
    /\ forallb (fun e => negb (builds e)) t1 = true
    /\ forallb (fun e => negb (is_remove e)) t2 = true.
Proof.
  rewrite action_fetched, trace_try_catch, trace_bind, <- app_assoc.
  eexists. eexists. split; [reflexivity |].
  split; [apply prelude_builds_nothing |].
  rewrite forallb_app. apply andb_true_iff. split.
  - destruct (snd (prelude w projectName)); try reflexivity.
    apply after_fetch_no_remove.
  - destruct (snd (bind _ _)); reflexivity.
Qed.

Lemma validate_iff_trim (value : jsstring) :
  validate value = true <-> trim value <> [].
Proof.
  unfold validate. destruct value as [| c t].
  - split; [discriminate | intros H; now contradiction H].
  - destruct (trim (c :: t)); simpl; split; congruence.
Qed.

Lemma drop_while_nil_iff (p : code_unit -> bool) (s : jsstring) :
  drop_while p s = [] <-> forallb p s = true.
Proof.
  induction s as [| c t IH]; simpl; [tauto |].
  destruct (p c); simpl; [exact IH |]. split; discriminate.
Qed.

Lemma trim_nil_iff (s : jsstring) :
  trim s = [] <-> forallb is_white_space s = true.
Proof.
  rewrite <- drop_while_nil_iff. unfold trim, trimStart.
  destruct (drop_while is_white_space s) as [| c t] eqn:E.
  - split; reflexivity.
  - pose proof (@drop_while_head is_white_space s c t E) as Hc.
    rewrite (@trimEnd_cons c t Hc). split; discriminate.
Qed.

(** X21.  The name prompt accepts exactly the submissions that hold a
    code unit other than white space; a blank submission is asked
    again. *)
Theorem validate_iff_not_blank (value : jsstring) :
  validate value = true
  <-> existsb (fun c => negb (is_white_space c)) value = true.
Proof.
  rewrite validate_iff_trim, trim_nil_iff.
  destruct (forallb is_white_space value) eqn:E.
  - split; [intros H; now contradiction H |].
    intros H. apply existsb_exists in H as (c & Hin & Hc).
    rewrite forallb_forall in E. rewrite (E c Hin) in Hc. discriminate.
  - split; [| discriminate]. intros _.
    induction value as [| c t IH]; [discriminate |].
    simpl in *. destruct (is_white_space c); simpl in *; auto.
Qed.

Lemma fetch_attempts (v : variant) (w : world) (o : options)
    (name : jsstring) :
  (List.length (filter is_degit (trace (fetchTemplate_of v w o name)))
   <= max_attempts v)%nat.
Proof.
  destruct v; unfold fetchTemplate_of, Bin.fetchTemplate, Bin.tryClone,
    Alt.fetchTemplate, failed_clone_lines, call, emit, try_catch, bind, ret,
    throw, trace;
    [destruct (starts_with GITHUB_PREFIX (repoBase o)) |];
    repeat match goal with
      | |- context [match degit_new ?a ?b with _ => _ end] =>
          destruct (degit_new a b); cbn
      | |- context [match degit_clone ?a ?b ?c with _ => _ end] =>
          destruct (degit_clone a b c); cbn
      end;
    cbn; lia.
Qed.

Lemma after_fetch_no_degit (v : variant) (toLowerCase : jsstring -> jsstring)
    (w : world) (o : options) (name : jsstring) :
  forallb (fun e => negb (is_degit e))
    (trace (bind (rewritePackage toLowerCase w (name_token_of v) name)
              (fun _ =>
                 bind (installDependencies_of v w o name)
                   (fun _ => bind (initGit_of v w o name)
                               (fun _ => summary o name)))))
  = true.
Proof.
  destruct v; unfold installDependencies_of, initGit_of;
    unfold_stages; unfold query, throw; all_events.
Qed.

Lemma prelude_no_degit (w : world) (projectName : option jsstring) :
  forallb (fun e => negb (is_degit e)) (trace (prelude w projectName)) = true.
Proof. unfold_stages. unfold query. all_events. Qed.

(** X22.  A run makes at most two fetch attempts in [src/bin/index.js]
    and at most one in the second variant, whatever fails. *)
Theorem fetch_attempts_bounded (v : variant)
    (toLowerCase : jsstring -> jsstring) (w : world)
    (projectName : option jsstring) (o : options) :
  (List.length
     (filter is_degit (trace (action_of v toLowerCase w projectName o)))
   <= max_attempts v)%nat.
Proof.
  rewrite action_fetched, trace_try_catch, trace_bind.
  rewrite !filter_app.
  rewrite (forallb_negb_filter _ _ (prelude_no_degit w projectName)).
  assert (Hr : filter is_degit
                 match
                   snd (bind (prelude w projectName)
                          (fun name =>
                             bind (fetchTemplate_of v w o name)
                               (fun _ =>
                                  bind (rewritePackage toLowerCase w
                                          (name_token_of v) name)
                                    (fun _ =>
                                       bind (installDependencies_of v w o name)
                                         (fun _ =>
                                            bind (initGit_of v w o name)
                                              (fun _ => summary o name))))))
                 with
                 | Throw e => trace (report e)
                 | _ => []
                 end = [])
    by (destruct (snd (bind _ _)); reflexivity).
  rewrite Hr, app_nil_r. simpl app.
  destruct (snd (prelude w projectName)); try (simpl; lia).
  rewrite trace_bind, filter_app.
  assert (Hk : filter is_degit
                 match snd (fetchTemplate_of v w o a) with
                 | Normal _ =>
                     trace
                       (bind (rewritePackage toLowerCase w (name_token_of v) a)
                          (fun _ =>
                             bind (installDependencies_of v w o a)
                               (fun _ => bind (initGit_of v w o a)
                                           (fun _ => summary o a))))
                 | _ => []
                 end = []).
  { destruct (snd (fetchTemplate_of v w o a)); try reflexivity.
    apply forallb_negb_filter. apply after_fetch_no_degit. }
  rewrite Hk, app_nil_r. apply fetch_attempts.
Qed.
